(** * energy-map: the loader and the aggregation pipeline of [app.py]

    The dashboard reads a table of hourly generation volumes per region,
    derives a timestamp and calendar fields, drops the mainland rows,
    normalises region names, and then filters and aggregates the table
    for three charts.  This file embeds that pipeline and proves the
    properties the specification states about it.

    Modelling conventions.
    - A data frame is the list of its rows, in row order; a column is a
      record field.  A missing cell (NaN) is [None].
    - A [datetime64[ns]] value is the integer number of nanoseconds since
      1970-01-01T00:00, a timedelta an integer number of nanoseconds.
      The 거래일자 cell of the input is the calendar date it denotes.
    - Strings are byte strings in UTF-8; comparing them bytewise is
      comparing them by code point, which is the order [sorted] uses.
    - Volumes are summed with the addition of a [Volume] structure, in
      row order: exact integers, or [float64] with the addition of the
      machine.  The laws of exact arithmetic are assumed only where a
      statement says so.
    - A call that raises returns [None].
    - A widget returns the option the user picked; a user is the index it
      picks in each widget. *)

From Stdlib Require Import Floats.PrimFloat.
From stdpp Require Import gmap strings list sorting.
From Stdlib Require Import ZArith Lia.

Local Open Scope Z_scope.
#[local] Set Warnings "-clear-no-such-hyp".
#[local] Set Warnings "-inexact-float".

(** * Calendar arithmetic behind [pd.to_datetime], [pd.to_timedelta] and
      the [.dt] accessors *)

Module Calendar.

Record date := Date { dyear : Z; dmonth : Z; dday : Z }.

Global Instance date_eq_dec : EqDecision date.
Proof. solve_decision. Defined.

Definition is_leap (y : Z) : bool :=
  (y mod 4 =? 0) && (negb (y mod 100 =? 0) || (y mod 400 =? 0)).

Definition days_in_month (y m : Z) : Z :=
  if m =? 2 then (if is_leap y then 29 else 28)
  else if (m =? 4) || (m =? 6) || (m =? 9) || (m =? 11) then 30
  else 31.

(** The dates of the proleptic Gregorian calendar. *)
Definition valid_date (d : date) : bool :=
  (1 <=? dmonth d) && (dmonth d <=? 12) &&
  (1 <=? dday d) && (dday d <=? days_in_month (dyear d) (dmonth d)).

(** Years are counted from 1 March inside a 400-year era of 146097
    days; [yoe] is the year of the era, [doe] the day of the era. *)
Definition year_shift (m : Z) : Z := if m <=? 2 then 1 else 0.

Definition doy_of (m d : Z) : Z :=
  (153 * (if 2 <? m then m - 3 else m + 9) + 2) / 5 + d - 1.

Definition doe_of (yoe m d : Z) : Z :=
  yoe * 365 + yoe / 4 - yoe / 100 + doy_of m d.

Definition civil_of_doe (doe : Z) : Z * Z * Z :=
  let yoe := (doe - doe / 1460 + doe / 36524 - doe / 146096) / 365 in
  let doy := doe - (365 * yoe + yoe / 4 - yoe / 100) in
  let mp := (5 * doy + 2) / 153 in
  let d := doy - (153 * mp + 2) / 5 + 1 in
  let m := if mp <? 10 then mp + 3 else mp - 9 in
  (yoe, m, d).

(** Days since 1970-01-01 of a calendar date. *)
Definition days_from_civil (dt : date) : Z :=
  let y := dyear dt - year_shift (dmonth dt) in
  let era := y / 400 in
  let yoe := y - era * 400 in
  era * 146097 + doe_of yoe (dmonth dt) (dday dt) - 719468.

(** The calendar date of a day number. *)
Definition civil_from_days (z : Z) : date :=
  let z' := z + 719468 in
  let era := z' / 146097 in
  let doe := z' - era * 146097 in
  let '(yoe, m, d) := civil_of_doe doe in
  Date (yoe + era * 400 + year_shift m) m d.

Definition NS_PER_HOUR : Z := 3600000000000.
Definition NS_PER_DAY : Z := 24 * NS_PER_HOUR.

(** [pd.to_datetime] of a date: midnight of that day. *)
Definition to_datetime (dt : date) : Z := days_from_civil dt * NS_PER_DAY.

(** [pd.to_timedelta(n, unit="h")]. *)
Definition to_timedelta_h (n : Z) : Z := n * NS_PER_HOUR.

(** [.dt.month], [.dt.day], [.dt.hour] of a timestamp. *)
Definition dt_date (t : Z) : date := civil_from_days (t / NS_PER_DAY).
Definition dt_month (t : Z) : Z := dmonth (dt_date t).
Definition dt_day (t : Z) : Z := dday (dt_date t).
Definition dt_hour (t : Z) : Z := (t mod NS_PER_DAY) / NS_PER_HOUR.


(** The way back inside one era: the date of a day of the era is a
    calendar date, and it is the date of that day only. *)
Definition doe_case_ok (doe : Z) : bool :=
  implb (doe <? 146097)
    (let '(yoe, m, d) := civil_of_doe doe in
     (0 <=? yoe) && (yoe <? 400) && (1 <=? m) && (m <=? 12) && (1 <=? d) &&
     (d <=? days_in_month (yoe + year_shift m) m) &&
     (doe_of yoe m d =? doe)).

End Calendar.

(** * The data-frame operations the program uses *)

Module Frame.

(** Keys that [sorted] and [groupby] can order. *)
Class Ordered (K : Type) := {
  key_le : relation K;
  key_le_dec :: RelDecision key_le;
  key_le_total :: Total key_le;
  key_le_trans :: Transitive key_le;
  key_le_antisymm :: AntiSymm (=) key_le
}.

Global Instance Z_ordered : Ordered Z := {| key_le := Z.le |}.

Global Instance string_ordered : Ordered string := {| key_le := String.le |}.

(** Tuples compare lexicographically. *)
Definition lex_le {A B} `{Ordered A, Ordered B} : relation (A * B) :=
  λ p q, (key_le p.1 q.1 ∧ p.1 ≠ q.1) ∨ (p.1 = q.1 ∧ key_le p.2 q.2).

Global Instance lex_le_dec {A B} `{EqDecision A, Ordered A, Ordered B} :
  RelDecision (@lex_le A B _ _).
Proof. intros p q. unfold lex_le. apply _. Defined.

Global Instance lex_le_total {A B} `{EqDecision A, Ordered A, Ordered B} :
  Total (@lex_le A B _ _).
Proof.
  intros [a1 b1] [a2 b2]. unfold lex_le. simpl.
  destruct (decide (a1 = a2)) as [->|Hne].
  - destruct (total key_le b1 b2); [left|right]; right; done.
  - destruct (total key_le a1 a2); [left|right]; left; split; congruence.
Qed.

Global Instance lex_le_trans {A B} `{Ordered A, Ordered B} :
  Transitive (@lex_le A B _ _).
Proof.
  intros [a1 b1] [a2 b2] [a3 b3]. unfold lex_le. simpl.
  intros [[H12 N12]|[-> H12]] [[H23 N23]|[-> H23]].
  - left. split; [by etrans|]. intros ->. apply N12.
    by apply (anti_symm key_le).
  - left. done.
  - left. done.
  - right. split; [done|]. by etrans.
Qed.

Global Instance lex_le_antisymm {A B} `{Ordered A, Ordered B} :
  AntiSymm (=) (@lex_le A B _ _).
Proof.
  intros [a1 b1] [a2 b2]. unfold lex_le. simpl.
  intros [[H12 N12]|[-> H12]] [[H21 N21]|[E H21]]; try congruence.
  - exfalso. apply N12. by apply (anti_symm key_le).
  - f_equal. by apply (anti_symm key_le).
Qed.

Global Instance pair_ordered {A B} `{EqDecision A, Ordered A, Ordered B} :
  Ordered (A * B) := {| key_le := lex_le |}.

(** [sorted(xs)]. *)
Definition sorted {K} `{Ordered K} (l : list K) : list K :=
  merge_sort key_le l.

(** [Series.unique()]: the distinct values, in order of first
    appearance. *)
Fixpoint unique {A} `{EqDecision A} (l : list A) : list A :=
  match l with
  | [] => []
  | x :: l => x :: filter (λ y, y ≠ x) (unique l)
  end.

(** [Series.isin(values)]. *)
Definition isin {A} `{EqDecision A} (x : A) (values : list A) : bool :=
  bool_decide (x ∈ values).

(** [Series.replace(mapping)] on one cell: a cell equal to a key becomes
    the value stored under that key, any other cell stays. *)
Definition replace {A} `{Countable A} (mapping : gmap A A) (x : A) : A :=
  default x (mapping !! x).

(** The arithmetic of the volume column. *)
Class Volume (V : Type) := { vzero : V; vadd : V → V → V }.

(** The laws of exact arithmetic. *)
Class VolumeLaws (V : Type) `{Volume V} : Prop := {
  vadd_assoc :: Assoc (=) (vadd (V:=V));
  vadd_comm :: Comm (=) (vadd (V:=V));
  vadd_zero_l :: LeftId (=) vzero (vadd (V:=V))
}.

Global Instance Z_volume : Volume Z := {| vzero := 0; vadd := Z.add |}.

Global Instance Z_volume_laws : VolumeLaws Z.
Proof. split; [intros x y z|intros x y|intros x]; simpl; lia. Qed.

(** The volume column as the file has it: [float64], added as the
    machine adds. *)
Global Instance float_volume : Volume PrimFloat.float :=
  Build_Volume PrimFloat.float 0%float PrimFloat.add.

(** [Series.sum()]: the cells are added up in row order. *)
Definition vsum {V} `{Volume V} (l : list V) : V := foldl vadd vzero l.

(** The sum of the cells of the rows with key [k]. *)
Definition group_total {R K V} `{EqDecision K, Volume V}
    (key : R → K) (val : R → V) (rows : list R) (k : K) : V :=
  vsum (val <$> filter (λ r, key r = k) rows).

(** [df.groupby(key)[val].sum().reset_index()]: one row per distinct
    key, keys in sorted order, the sum of the group's cells. *)
Definition groupby_sum {R K V} `{EqDecision K, Ordered K, Volume V}
    (key : R → K) (val : R → V) (rows : list R) : list (K * V) :=
  (λ k, (k, group_total key val rows k))
    <$> sorted (unique (key <$> rows)).

(** [pd.merge(left, right, on=key, how=...)] of two frames with one key
    column and the other columns [A] and [B].  A row of the anchoring
    side is paired with each row of the other side that has its key, in
    order; with no such row it is kept once and the cells of the other
    side are missing. *)
Inductive how := how_left | how_right.

Definition merge {K A B} `{EqDecision K}
    (left : list (K * A)) (right : list (K * B)) (h : how)
    : list (K * option A * option B) :=
  match h with
  | how_left =>
      l ← left;
      match filter (λ r, r.1 = l.1) right with
      | [] => [(l.1, Some l.2, None)]
      | ms => (λ r, (l.1, Some l.2, Some r.2)) <$> ms
      end
  | how_right =>
      r ← right;
      match filter (λ l, l.1 = r.1) left with
      | [] => [(r.1, None, Some r.2)]
      | ms => (λ l, (r.1, Some l.2, Some r.2)) <$> ms
      end
  end.

(** A frame with the key column only. *)
Definition key_frame {K} (keys : list K) : list (K * ()) :=
  (λ k, (k, ())) <$> keys.

(** The dtype of a key column.  A column of strings read from the file
    has dtype [object], also when it has no row; the column that
    [pd.DataFrame({key: values})] makes of a list has dtype [object]
    when the list has strings and [float64] when the list is empty. *)
Inductive dtype := float64 | object.

Global Instance dtype_eq_dec : EqDecision dtype.
Proof. solve_decision. Defined.

Definition list_dtype {K} (values : list K) : dtype :=
  match values with
  | [] => float64
  | _ :: _ => object
  end.

(** [pd.merge] looks at the dtypes of the two key columns before it
    joins, and raises [ValueError] when one is [float64] and the other
    [object]. *)
Definition merge_on {K A B} `{EqDecision K} (left_dtype right_dtype : dtype)
    (left : list (K * A)) (right : list (K * B)) (h : how)
    : option (list (K * option A * option B)) :=
  if decide (left_dtype = right_dtype)
  then Some (merge left right h)
  else None.

End Frame.

(** * The program *)

Module App.
Import Frame.

(** 지역명 정규화 *)
Definition region_mapping : gmap string string :=
  list_to_map [
    ("서울시", "서울특별시");
    ("부산시", "부산광역시");
    ("대구시", "대구광역시");
    ("인천시", "인천광역시");
    ("광주시", "광주광역시");
    ("대전시", "대전광역시");
    ("울산시", "울산광역시");
    ("세종시", "세종특별자치시");
    ("제주", "제주특별자치도");
    ("제주도", "제주특별자치도")
  ].

(** The choice made in a month, day or hour selector: ["합계"], or the
    text of a number, which the program reads back with [int]. *)
Inductive selection := aggregate | concrete (n : Z).

Global Instance selection_eq_dec : EqDecision selection.
Proof. solve_decision. Defined.

Global Instance selection_inhabited : Inhabited selection :=
  populate aggregate.

(** [st.selectbox] and [st.radio]: the option at the index the user
    picked; the first option when the user picked none of the list. *)
Definition selectbox {A} `{Inhabited A} (options : list A) (pick : nat) : A :=
  default (default inhabitant (head options)) (options !! pick).

(** What the user picks in the four widgets. *)
Record user := User {
  pick_month : nat;
  pick_day : nat;
  pick_hour : nat;
  pick_source : nat
}.

Section with_volume.
Context {V : Type} `{Volume V}.

(** A row of the CSV file: 거래일자, 거래시간, 지역, 연료원,
    전력거래량(MWh). *)
Record raw_row := RawRow {
  raw_date : Calendar.date;
  raw_hour : Z;
  raw_region : string;
  raw_fuel : string;
  raw_volume : V
}.

(** A row of the loaded frame: the CSV columns and 시간, 월, 일, 시. *)
Record row := Row {
  trade_date : Calendar.date;
  trade_hour : Z;
  region : string;
  fuel : string;
  volume : V;
  time : Z;
  month : Z;
  day : Z;
  hour : Z
}.

(** The assignments of the four derived columns. *)
Definition with_time (r : raw_row) : row :=
  let t := Calendar.to_datetime (raw_date r)
           + Calendar.to_timedelta_h (raw_hour r - 1) in
  {| trade_date := raw_date r; trade_hour := raw_hour r;
     region := raw_region r; fuel := raw_fuel r; volume := raw_volume r;
     time := t;
     month := Calendar.dt_month t;
     day := Calendar.dt_day t;
     hour := Calendar.dt_hour t |}.

Definition set_region (g : string) (r : row) : row :=
  {| trade_date := trade_date r; trade_hour := trade_hour r;
     region := g; fuel := fuel r; volume := volume r;
     time := time r; month := month r; day := day r; hour := hour r |}.

Definition load_data (csv : list raw_row) : list row :=
  let df := with_time <$> csv in
  let df := filter (λ r, negb (isin (region r) ["육지"])) df in
  (λ r, set_region (replace region_mapping (region r)) r) <$> df.

(** 지역 전체 목록 *)
Definition all_regions (df : list row) : list string :=
  sorted (unique (region <$> df)).

(** 사용자 입력 *)
Definition month_options (df : list row) : list Z :=
  sorted (unique (month <$> df)).

Definition day_options (df : list row) (selected_month : Z) : list Z :=
  sorted (unique (day <$> filter (λ r, month r = selected_month) df)).

Definition hour_options (df : list row) (selected_month selected_day : Z)
    : list Z :=
  sorted (unique (hour <$>
    filter (λ r, month r = selected_month ∧ day r = selected_day) df)).

(** [["합계"] + [str(x) for x in options]] *)
Definition with_total (options : list Z) : list selection :=
  aggregate :: (concrete <$> options).

Definition month_selected (df : list row) (u : user) : selection :=
  selectbox (with_total (month_options df)) (pick_month u).

Definition day_selected (df : list row) (u : user) : selection :=
  match month_selected df u with
  | aggregate => aggregate
  | concrete selected_month =>
      selectbox (with_total (day_options df selected_month)) (pick_day u)
  end.

Definition hour_selected (df : list row) (u : user) : selection :=
  match month_selected df u, day_selected df u with
  | concrete selected_month, concrete selected_day =>
      selectbox (with_total (hour_options df selected_month selected_day))
        (pick_hour u)
  | _, _ => aggregate
  end.

Definition source_selected (u : user) : string :=
  selectbox ["태양광"; "풍력"; "합계"] (pick_source u).

(** 데이터 필터링 *)
Definition where_eq (col : row → Z) (sel : selection) (dff : list row)
    : list row :=
  match sel with
  | aggregate => dff
  | concrete n => filter (λ r, col r = n) dff
  end.

Definition dff (df : list row) (month_sel day_sel hour_sel : selection)
    (source_sel : string) : list row :=
  let dff := where_eq month month_sel df in
  let dff := where_eq day day_sel dff in
  let dff := where_eq hour hour_sel dff in
  if decide (source_sel ≠ "합계")
  then filter (λ r, fuel r = source_sel) dff
  else dff.

(** 히트맵: 지역, 전력거래량(MWh).  The key column of [all_regions] is
    made of a list, the key column of the grouped frame is the region
    column of the file; the merge raises when the list is empty. *)
Definition df_map (df dff : list row) : option (list (string * V)) :=
  let df_map := groupby_sum region volume dff in
  fmap (M:=list) (λ '(g, _, v), (g, default vzero v))
    <$> merge_on (list_dtype (all_regions df)) object
          (key_frame (all_regions df)) df_map how_left.

(** 라인차트: 시간, 지역, 전력거래량(MWh) *)
Definition df_line (dff : list row) : list ((Z * string) * V) :=
  groupby_sum (λ r, (time r, region r)) volume dff.

(** 애니메이션: 지역, 시, 전력거래량(MWh); only when no hour is
    selected.  This merge is reached after the merge of the heat map
    went through, so its key columns have one dtype. *)
Definition df_anim (df dff : list row) (hour_sel : selection)
    : option (list (string * Z * V)) :=
  match hour_sel with
  | aggregate =>
      let df_anim :=
        (λ '((h, g), v), (g, (h, v)))
          <$> groupby_sum (λ r, (hour r, region r)) volume dff in
      Some ((λ '(g, _, hv),
               (g, default 0 (fst <$> hv), default vzero (snd <$> hv)))
              <$> merge (key_frame (all_regions df)) df_anim how_right)
  | concrete _ => None
  end.

(** The frames the three charts are drawn from. *)
Record charts := Charts {
  fig_map : list (string * V);
  fig_line : list ((Z * string) * V);
  fig_anim : option (list (string * Z * V))
}.

(** The page.  When the merge of the heat map raises, nothing after it
    runs and no chart is drawn. *)
Definition main (df : list row) (u : user) : option charts :=
  let dff := dff df (month_selected df u) (day_selected df u)
               (hour_selected df u) (source_selected u) in
  df_map ← df_map df dff;
  Some {| fig_map := df_map;
          fig_line := df_line dff;
          fig_anim := df_anim df dff (hour_selected df u) |}.

End with_volume.

Global Arguments raw_row : clear implicits.
Global Arguments row : clear implicits.
Global Arguments charts : clear implicits.

(** The hourly frame filled up with zeros, as the specification words
    it: for every hour of the grouped result and every region of
    [all_regions] the frame [view] has a row, and the row of a pair
    without rows in [dff] has volume 0. *)
Definition hourly_zero_filled {V} `{Volume V} (df dff : list (row V))
    (view : list (string * Z * V)) : Prop :=
  ∀ h g, h ∈ hour <$> dff → g ∈ all_regions df →
    ∃ v, (g, h, v) ∈ view ∧
         ((∀ r, r ∈ dff → ¬ (hour r = h ∧ region r = g)) → v = vzero).

(** A cell passes a selector that is on ["합계"], and a selector that is
    on its own number. *)
Definition passes (sel : selection) (x : Z) : Prop :=
  match sel with
  | aggregate => True
  | concrete n => x = n
  end.

Global Instance passes_dec sel x : Decision (passes sel x).
Proof. destruct sel; simpl; apply _. Defined.

End App.


(** * Sample data *)

Module Sample.
Import Frame App.

Definition jan1 : Calendar.date := Calendar.Date 2024 1 1.

(** The two rows of the specification's example. *)
Definition seoul_csv : list (raw_row Z) := [
  RawRow jan1 1 "서울시" "태양광" 10;
  RawRow jan1 1 "서울특별시" "태양광" 5
].

(** A CSV file with short and full region names, mainland rows, both
    fuels, and an hour index past the end of the day. *)
Definition csv : list (raw_row Z) := [
  RawRow jan1 1 "서울시" "태양광" 10;
  RawRow jan1 1 "서울특별시" "태양광" 5;
  RawRow jan1 1 "육지" "태양광" 1000;
  RawRow jan1 24 "부산시" "풍력" 7;
  RawRow (Calendar.Date 2024 1 2) 3 "부산시" "태양광" 4;
  RawRow (Calendar.Date 2024 2 29) 25 "제주" "풍력" 3;
  RawRow (Calendar.Date 2024 2 29) 2 "육지" "풍력" 2000
].

Definition df : list (row Z) := Eval vm_compute in load_data csv.

(** A file with [float64] volumes: 0.1 for one region, 0.2 and 0.3 for
    another. *)
Definition float_csv : list (raw_row PrimFloat.float) := [
  RawRow jan1 1 "부산광역시" "태양광" 0.1%float;
  RawRow jan1 1 "서울특별시" "태양광" 0.2%float;
  RawRow jan1 2 "서울특별시" "태양광" 0.3%float
].

Definition float_df : list (row PrimFloat.float) :=
  Eval vm_compute in load_data float_csv.

(** Month 1, day 1, every hour, 태양광. *)
Definition solar_jan1 : user := User 1 1 0 0.

(** Every month, day and hour, both fuels. *)
Definition everything : user := User 0 0 0 2.

(** Two rows of the loaded sample frame. *)
Definition busan_row : row Z :=
  Row jan1 24 "부산광역시" "풍력" 7 1704150000000000000 1 1 23.

Definition jeju_row : row Z :=
  Row (Calendar.Date 2024 2 29) 25 "제주특별자치도" "풍력" 3
    1709251200000000000 3 1 0.

(** A loaded frame with a fuel that the source selector does not name. *)
Definition hydro_row : row Z :=
  Row jan1 1 "강원도" "수력" 8 1704067200000000000 1 1 0.

Definition hydro_df : list (row Z) := hydro_row :: df.

(** A file with mainland rows only. *)
Definition mainland_csv : list (raw_row Z) := [
  RawRow jan1 1 "육지" "태양광" 1000;
  RawRow jan1 2 "육지" "풍력" 2000
].

End Sample.

(** * Facts about the calendar *)

Section calendar_facts.
Import Calendar.

Lemma forallb_seqZ (f : Z → bool) (lo n x : Z) :
forallb f (seqZ lo n) = true → lo ≤ x < lo + n → f x = true.
Proof.
intros H Hx. rewrite forallb_forall in H. apply H.
apply list_elem_of_In, elem_of_seqZ. lia.
Qed.



Lemma is_leap_era (x e : Z) : is_leap (x + e * 400) = is_leap x.
Proof.
unfold is_leap.
replace ((x + e * 400) mod 4) with (x mod 4)
  by (replace (e * 400) with (e * 100 * 4) by lia;
      now rewrite Z_mod_plus_full).
replace ((x + e * 400) mod 100) with (x mod 100)
  by (replace (e * 400) with (e * 4 * 100) by lia;
      now rewrite Z_mod_plus_full).
now rewrite Z_mod_plus_full.
Qed.

Lemma days_in_month_le_31 (y m : Z) : days_in_month y m ≤ 31.
Proof.
unfold days_in_month.
repeat match goal with |- context [if ?b then _ else _] => destruct b end;
  lia.
Qed.

Lemma valid_date_bounds (dt : date) :
valid_date dt = true →
1 ≤ dmonth dt ≤ 12 ∧ 1 ≤ dday dt ≤ days_in_month (dyear dt) (dmonth dt).
Proof.
unfold valid_date. rewrite !andb_true_iff, !Z.leb_le. tauto.
Qed.



Example epoch_day : days_from_civil (Date 1970 1 1) = 0.
Proof. reflexivity. Qed.

Example new_year_2024 : days_from_civil (Date 2024 1 1) = 19723.
Proof. reflexivity. Qed.

Example leap_day_2024 : civil_from_days 19782 = Date 2024 2 29.
Proof. reflexivity. Qed.

Example before_epoch : civil_from_days (-1) = Date 1969 12 31.
Proof. reflexivity. Qed.

(** Within a day, the timestamp of hour [h] falls on that day, at hour
  [h]. *)
Lemma dt_date_within_day (days h : Z) :
0 ≤ h < 24 →
dt_date (days * NS_PER_DAY + to_timedelta_h h) = civil_from_days days.
Proof.
intros Hh. unfold dt_date, to_timedelta_h, NS_PER_DAY, NS_PER_HOUR.
f_equal. symmetry.
apply (Z.div_unique _ _ days (h * 3600000000000)); lia.
Qed.

Lemma dt_hour_within_day (days h : Z) :
0 ≤ h < 24 → dt_hour (days * NS_PER_DAY + to_timedelta_h h) = h.
Proof.
intros Hh. unfold dt_hour, to_timedelta_h, NS_PER_DAY, NS_PER_HOUR.
replace ((days * (24 * 3600000000000) + h * 3600000000000)
           mod (24 * 3600000000000)) with (h * 3600000000000).
- rewrite Z.div_mul; lia.
- apply (Z.mod_unique _ _ days); lia.
Qed.

End calendar_facts.

(** * Facts about the data-frame operations *)

Section frame_facts.
Import Frame.

Section unique.
Context {A : Type} `{EqDecision A}.
Implicit Types (x : A) (l : list A).

Lemma elem_of_unique x l : x ∈ unique l ↔ x ∈ l.
Proof.
  induction l as [|y l IH]; simpl; [done|].
  rewrite !elem_of_cons, list_elem_of_filter, IH.
  destruct (decide (x = y)); naive_solver.
Qed.

Lemma NoDup_unique l : NoDup (unique l).
Proof.
  induction l as [|y l IH]; simpl; [constructor|].
  constructor; [|by apply NoDup_filter].
  rewrite list_elem_of_filter. naive_solver.
Qed.

(** A key occurs once in a list without duplicates. *)
Lemma filter_eq_NoDup x l :
  NoDup l →
  filter (λ y, y = x) l = if decide (x ∈ l) then [x] else [].
Proof.
  induction 1 as [|y l Hy Hl IH]; [done|].
  rewrite filter_cons. destruct (decide (y = x)) as [->|Hne].
  - rewrite decide_True by left. f_equal.
    rewrite IH. by rewrite decide_False.
  - rewrite IH. destruct (decide (x ∈ l)).
    + by rewrite decide_True by by right.
    + rewrite decide_False; [done|]. rewrite elem_of_cons. naive_solver.
Qed.
End unique.

Lemma filter_fmap {A B} (f : A → B) (P : B → Prop) `{∀ y, Decision (P y)}
    (l : list A) :
  filter P (f <$> l) = f <$> filter (λ x, P (f x)) l.
Proof.
  induction l as [|x l IH]; csimpl; [done|].
  rewrite !filter_cons, IH. by destruct (decide (P (f x))).
Qed.

Lemma filter_none {A} (P : A → Prop) `{∀ x, Decision (P x)} (l : list A) :
  (∀ x, x ∈ l → ¬ P x) → filter P l = [].
Proof.
  induction l as [|x l IH]; intros Hl; [done|].
  rewrite filter_cons_False by (apply Hl; by left).
  apply IH. intros y Hy. apply Hl. by right.
Qed.

Section sorted.
Context {K : Type} `{Ordered K}.
Implicit Types (k : K) (l : list K).

Lemma sorted_Permutation l : sorted l ≡ₚ l.
Proof. apply merge_sort_Permutation. Qed.

Lemma elem_of_sorted k l : k ∈ sorted l ↔ k ∈ l.
Proof. by rewrite sorted_Permutation. Qed.

Lemma NoDup_sorted l : NoDup l → NoDup (sorted l).
Proof. by rewrite sorted_Permutation. Qed.

Lemma Sorted_sorted l : Sorted key_le (sorted l).
Proof. apply Sorted_merge_sort, _. Qed.

(** [sorted(xs.unique())] lists the values of [xs], each once, in
    increasing order. *)
Lemma elem_of_sorted_unique `{EqDecision K} k l :
  k ∈ sorted (unique l) ↔ k ∈ l.
Proof. by rewrite elem_of_sorted, elem_of_unique. Qed.

Lemma NoDup_sorted_unique `{EqDecision K} l : NoDup (sorted (unique l)).
Proof. apply NoDup_sorted, NoDup_unique. Qed.
End sorted.

Section groupby.
Context {R K V : Type} `{EqDecision K, Ordered K, Volume V}.
Context (key : R → K) (val : R → V).
Implicit Types (k : K) (rows : list R).

Lemma groupby_sum_keys rows :
  (groupby_sum key val rows).*1 = sorted (unique (key <$> rows)).
Proof.
  unfold groupby_sum. generalize (sorted (unique (key <$> rows))).
  intros l. induction l as [|k l IH]; csimpl; [done|]. by rewrite IH.
Qed.

Lemma elem_of_groupby_sum rows k v :
  (k, v) ∈ groupby_sum key val rows ↔
  (∃ r, r ∈ rows ∧ key r = k) ∧ v = group_total key val rows k.
Proof.
  unfold groupby_sum. rewrite list_elem_of_fmap. split.
  - intros (k' & [= -> ->] & Hk). split; [|done].
    apply elem_of_sorted_unique, list_elem_of_fmap in Hk.
    naive_solver.
  - intros [(r & Hr & <-) ->]. exists (key r). split; [done|].
    apply elem_of_sorted_unique, list_elem_of_fmap. eauto.
Qed.

(** The rows of the grouped frame with a given key. *)
Lemma groupby_sum_filter rows k :
  filter (λ p, p.1 = k) (groupby_sum key val rows) =
  if decide (k ∈ key <$> rows) then [(k, group_total key val rows k)]
  else [].
Proof.
  unfold groupby_sum.
  rewrite filter_fmap. simpl.
  rewrite filter_eq_NoDup by apply NoDup_sorted_unique.
  destruct (decide (k ∈ sorted _)) as [Hk|Hk];
    rewrite elem_of_sorted_unique in Hk.
  - by rewrite decide_True.
  - by rewrite decide_False.
Qed.
End groupby.

Section merge.
Context {K B : Type} `{EqDecision K}.
Implicit Types (ks : list K) (right : list (K * B)).

Lemma key_frame_filter ks k :
  NoDup ks →
  filter (λ l : K * (), l.1 = k) (key_frame ks) =
  if decide (k ∈ ks) then [(k, ())] else [].
Proof.
  intros Hks. unfold key_frame. rewrite filter_fmap. simpl.
  rewrite filter_eq_NoDup by done. by destruct (decide (k ∈ ks)).
Qed.

(** A left join with a right frame that has each key at most once
    keeps one row per row of the left frame. *)
Lemma merge_left_key_frame ks right (cell : K → option B) :
  (∀ k, filter (λ r, r.1 = k) right = from_option (λ b, [(k, b)]) [] (cell k)) →
  merge (key_frame ks) right how_left = (λ k, (k, Some (), cell k)) <$> ks.
Proof.
  intros Hcell. unfold merge, key_frame.
  induction ks as [|k ks IH]; [done|].
  rewrite !fmap_cons, bind_cons, IH. simpl.
  rewrite Hcell. by destruct (cell k).
Qed.

(** A right join against a frame of distinct keys that has every key
    of the right frame keeps the right frame as it is. *)
Lemma merge_right_key_frame ks right :
  NoDup ks → (∀ p, p ∈ right → p.1 ∈ ks) →
  merge (key_frame ks) right how_right =
  (λ p, (p.1, Some (), Some p.2)) <$> right.
Proof.
  intros Hks. unfold merge.
  induction right as [|p right IH]; intros Hin; [done|].
  rewrite fmap_cons, bind_cons, IH by (intros q Hq; apply Hin; by right).
  rewrite key_frame_filter by done.
  rewrite decide_True by (apply Hin; by left). done.
Qed.
End merge.

Section vsum.
Context {V : Type} `{VolumeLaws V}.
Implicit Types (v : V) (l : list V).

Lemma foldl_vadd v l : foldl vadd v l = vadd v (vsum l).
Proof.
  unfold vsum. revert v. induction l as [|x l IH]; intros v; simpl.
  - by rewrite (comm vadd), (left_id vzero vadd).
  - rewrite IH, (IH (vadd vzero x)), (left_id vzero vadd).
    by rewrite (assoc vadd).
Qed.

Lemma vsum_cons v l : vsum (v :: l) = vadd v (vsum l).
Proof.
  unfold vsum at 1. simpl. by rewrite foldl_vadd, (left_id vzero vadd).
Qed.

Lemma vsum_zeros {K} (ks : list K) : vsum ((λ _, vzero) <$> ks) = vzero.
Proof.
  induction ks as [|k ks IH]; csimpl; [done|].
  by rewrite vsum_cons, IH, (left_id vzero vadd).
Qed.

(** Adding [v] to the entry of one key adds [v] to the total. *)
Lemma vsum_bump {K} `{EqDecision K} (f : K → V) (ks : list K) k0 v :
  NoDup ks → k0 ∈ ks →
  vsum ((λ k, if decide (k = k0) then vadd v (f k) else f k) <$> ks)
  = vadd v (vsum (f <$> ks)).
Proof.
  induction 1 as [|k ks Hk Hks IH]; intros Hin; [by inversion Hin|].
  csimpl. rewrite !vsum_cons.
  destruct (decide (k = k0)) as [->|Hne].
  - rewrite <- (assoc vadd). do 3 f_equal.
    apply list_fmap_ext. intros i k Hik.
    rewrite decide_False; [done|]. intros ->.
    apply Hk. by eapply list_elem_of_lookup_2.
  - rewrite IH by (apply elem_of_cons in Hin as [|]; congruence).
    by rewrite !(assoc vadd), (comm vadd (f k)).
Qed.

(** Conservation: the totals of the groups add up to the total of the
    frame, whenever the keys listed are distinct and every row has
    one of them. *)
Lemma vsum_group_totals {R K} `{EqDecision K} (key : R → K) (val : R → V)
    (ks : list K) (rows : list R) :
  NoDup ks → (∀ r, r ∈ rows → key r ∈ ks) →
  vsum (group_total key val rows <$> ks) = vsum (val <$> rows).
Proof.
  intros Hks. unfold group_total.
  induction rows as [|r rows IH]; intros Hin; csimpl.
  - apply vsum_zeros.
  - rewrite vsum_cons, <- IH by (intros q Hq; apply Hin; by right).
    rewrite <- (vsum_bump _ ks (key r)) by (done || apply Hin; by left).
    f_equal. apply list_fmap_ext. intros i k Hik.
    rewrite filter_cons.
    destruct (decide (key r = k)) as [<-|Hne].
    + rewrite decide_True by done. csimpl. by rewrite vsum_cons.
    + rewrite decide_False by congruence. done.
Qed.
End vsum.

End frame_facts.

(** * Facts about the program *)

Section app_facts.
Import Calendar Frame App.

(** ** The normalisation table *)

Lemma region_mapping_targets :
  map_Forall (λ _ c, region_mapping !! c = None ∧ c ≠ "육지") region_mapping.
Proof. apply (bool_decide_unpack _). by vm_compute. Qed.

Lemma region_mapping_target_not_key (k c : string) :
  region_mapping !! k = Some c → region_mapping !! c = None.
Proof. intros Hk. by apply region_mapping_targets in Hk as [? _]. Qed.

Lemma replace_not_key (x : string) :
  region_mapping !! replace region_mapping x = None.
Proof.
  unfold replace. destruct (region_mapping !! x) as [c|] eqn:Hx; simpl.
  - by eapply region_mapping_target_not_key.
  - done.
Qed.

Lemma replace_not_mainland (x : string) :
  x ≠ "육지" → replace region_mapping x ≠ "육지".
Proof.
  intros Hx. unfold replace.
  destruct (region_mapping !! x) as [c|] eqn:Hc; simpl; [|done].
  by apply region_mapping_targets in Hc as [_ ?].
Qed.

Context {V : Type} `{Volume V}.
Implicit Types (csv : list (raw_row V)) (df sub : list (row V)).
Implicit Types (r : row V) (raw : raw_row V) (g : string).

(** ** The loader *)

Lemma elem_of_load_data csv r :
  r ∈ load_data csv ↔
  ∃ raw, raw ∈ csv ∧ raw_region raw ≠ "육지" ∧
    r = set_region (replace region_mapping (raw_region raw)) (with_time raw).
Proof.
  unfold load_data. rewrite list_elem_of_fmap. split.
  - intros (r0 & -> & Hr0).
    apply list_elem_of_filter in Hr0 as [Hkeep Hr0].
    apply list_elem_of_fmap in Hr0 as (raw & -> & Hraw).
    exists raw. split_and!; [done| |done].
    intros Hm. simpl in Hkeep. rewrite Hm in Hkeep. by vm_compute in Hkeep.
  - intros (raw & Hraw & Hne & ->). exists (with_time raw). split; [done|].
    apply list_elem_of_filter. split; [|by apply list_elem_of_fmap_2].
    simpl. unfold isin. rewrite bool_decide_eq_false_2; [done|].
    by rewrite list_elem_of_singleton.
Qed.

(** ** The selectors *)

Lemma selectbox_elem_of {A} `{Inhabited A} (options : list A) pick :
  options ≠ [] → selectbox options pick ∈ options.
Proof.
  intros Hne. unfold selectbox.
  destruct (options !! pick) as [o|] eqn:Ho; simpl.
  - by eapply list_elem_of_lookup_2.
  - destruct options; [done|]. simpl. by left.
Qed.

Lemma elem_of_with_total (options : list Z) (s : selection) :
  s ∈ with_total options ↔ s = aggregate ∨ ∃ n, n ∈ options ∧ s = concrete n.
Proof.
  unfold with_total. rewrite elem_of_cons, list_elem_of_fmap. naive_solver.
Qed.

Lemma elem_of_day_options df selected_month n :
  n ∈ day_options df selected_month ↔
  ∃ r, r ∈ df ∧ month r = selected_month ∧ day r = n.
Proof.
  unfold day_options. rewrite elem_of_sorted_unique, list_elem_of_fmap.
  setoid_rewrite list_elem_of_filter. naive_solver.
Qed.

Lemma elem_of_hour_options df selected_month selected_day n :
  n ∈ hour_options df selected_month selected_day ↔
  ∃ r, r ∈ df ∧ month r = selected_month ∧ day r = selected_day ∧ hour r = n.
Proof.
  unfold hour_options. rewrite elem_of_sorted_unique, list_elem_of_fmap.
  setoid_rewrite list_elem_of_filter. naive_solver.
Qed.

(** ** The filtered frame *)

Lemma where_eq_subseteq (col : row V → Z) sel sub : where_eq col sel sub ⊆ sub.
Proof.
  destruct sel as [|n]; simpl; [done|].
  intros r. rewrite list_elem_of_filter. tauto.
Qed.

Lemma dff_subseteq df month_sel day_sel hour_sel source_sel :
  dff df month_sel day_sel hour_sel source_sel ⊆ df.
Proof.
  unfold dff. case_decide.
  - intros r. rewrite list_elem_of_filter. intros [_ Hr].
    by do 3 apply where_eq_subseteq in Hr.
  - intros r Hr. by do 3 apply where_eq_subseteq in Hr.
Qed.

Lemma elem_of_all_regions df g :
  g ∈ all_regions df ↔ ∃ r, r ∈ df ∧ region r = g.
Proof.
  unfold all_regions. rewrite elem_of_sorted_unique, list_elem_of_fmap.
  naive_solver.
Qed.

Lemma NoDup_all_regions df : NoDup (all_regions df).
Proof. apply NoDup_sorted_unique. Qed.

(** ** The region totals *)

Lemma all_regions_nil df : all_regions df = [] ↔ df = [].
Proof.
  split; [|by intros ->].
  destruct df as [|r df]; [done|]. intros Hnil. exfalso.
  assert (Hin : region r ∈ all_regions (r :: df))
    by (apply elem_of_all_regions; exists r; split; [by left|done]).
  rewrite Hnil in Hin. by apply elem_of_nil in Hin.
Qed.

(** The merge of the heat map raises on an empty loaded frame. *)
Lemma df_map_nil sub : df_map [] sub = None.
Proof. done. Qed.

(** On any other loaded frame it goes through. *)
Lemma df_map_eq df sub :
  df ≠ [] →
  df_map df sub =
  Some ((λ g, (g, group_total region volume sub g)) <$> all_regions df).
Proof.
  intros Hdf. unfold df_map, merge_on.
  destruct (all_regions df) as [|g0 gs] eqn:Hregions;
    [by apply all_regions_nil in Hregions|].
  cbn [list_dtype]. rewrite decide_True by done. cbn [fmap option_fmap option_map].
  f_equal.
  rewrite (merge_left_key_frame _ _
    (λ g, if decide (g ∈ region <$> sub)
          then Some (group_total region volume sub g) else None)).
  - rewrite <- list_fmap_compose. apply list_fmap_ext. intros i g _. simpl.
    case_decide as Hg; simpl; [done|].
    unfold group_total. f_equal.
    rewrite filter_none; [done|].
    intros r Hr Hrg. apply Hg. apply list_elem_of_fmap. eauto.
  - intros g. rewrite groupby_sum_filter. by case_decide.
Qed.

Lemma df_map_Some df sub m :
  df_map df sub = Some m →
  df ≠ []
  ∧ m = (λ g, (g, group_total region volume sub g)) <$> all_regions df.
Proof.
  destruct df as [|r df]; [by rewrite df_map_nil|].
  rewrite df_map_eq by done. by intros [= <-].
Qed.

Lemma main_eq df u :
  df ≠ [] →
  let sub := dff df (month_selected df u) (day_selected df u)
               (hour_selected df u) (source_selected u) in
  main df u
  = Some {| fig_map := (λ g, (g, group_total region volume sub g))
                         <$> all_regions df;
            fig_line := df_line sub;
            fig_anim := df_anim df sub (hour_selected df u) |}.
Proof. intros Hdf sub. unfold main. fold sub. by rewrite df_map_eq. Qed.

Lemma main_Some df u c :
  main df u = Some c →
  let sub := dff df (month_selected df u) (day_selected df u)
               (hour_selected df u) (source_selected u) in
  df ≠ []
  ∧ fig_map c = (λ g, (g, group_total region volume sub g))
                  <$> all_regions df
  ∧ fig_line c = df_line sub
  ∧ fig_anim c = df_anim df sub (hour_selected df u).
Proof.
  destruct df as [|r df]; [done|].
  intros Hc sub. rewrite main_eq in Hc by done. by injection Hc as <-.
Qed.

End app_facts.

(** * The properties of the specification *)

Section properties.
Import Calendar Frame App.

(** C1 as stated fails on a loaded frame without rows: the merge of
    the region totals raises there, no view is made and the page stops. *)
Lemma df_map_raises_on_empty_frame :
  df_map (V:=Z) [] (dff [] aggregate aggregate aggregate "합계") = None
  ∧ main (V:=Z) [] (User 0 0 0 0) = None.
Proof. split; reflexivity. Qed.

(** C1, as the code has it.  For every loaded frame that has rows and
    every choice of the four filters, the region totals are made and
    have exactly one row per region of [all_regions], in that order,
    where [all_regions] lists the regions of the loaded frame, each
    once, in increasing order.  The volume of a row is the sum of the
    volumes of the filtered rows of its region; it is 0 for a region
    without filtered rows, and so for every region when the filtered
    frame is empty. *)
Theorem df_map_one_row_per_region {V} `{Volume V} (df : list (row V))
    (month_sel day_sel hour_sel : selection) (source_sel : string) :
  df ≠ [] →
  let sub := dff df month_sel day_sel hour_sel source_sel in
  ∃ view,
    df_map df sub = Some view
    ∧ view.*1 = all_regions df
    ∧ NoDup (all_regions df)
    ∧ Sorted String.le (all_regions df)
    ∧ (∀ g, g ∈ all_regions df ↔ ∃ r, r ∈ df ∧ region r = g)
    ∧ (∀ g v, (g, v) ∈ view →
         v = vsum (volume <$> filter (λ r, region r = g) sub))
    ∧ (∀ g v, (g, v) ∈ view →
         (∀ r, r ∈ sub → region r ≠ g) → v = vzero)
    ∧ (sub = [] → view = (λ g, (g, vzero)) <$> all_regions df)
    ∧ (∀ u, ∃ c, main df u = Some c ∧ (fig_map c).*1 = all_regions df).
Proof.
  intros Hdf sub.
  assert (Hkeys : ∀ sub' : list (row V),
            ((λ g, (g, group_total region volume sub' g))
               <$> all_regions df).*1 = all_regions df).
  { intros sub'. rewrite <- list_fmap_compose. apply list_fmap_id. }
  eexists. split; [by apply df_map_eq|].
  split_and!.
  - apply Hkeys.
  - apply NoDup_all_regions.
  - exact (Sorted_sorted (K:=string) _).
  - apply elem_of_all_regions.
  - intros g v (g' & [= -> ->] & _)%list_elem_of_fmap. done.
  - intros g v (g' & [= -> ->] & _)%list_elem_of_fmap Hnone.
    unfold group_total. rewrite filter_none; [done|].
    intros r Hr Hg. by apply (Hnone r).
  - intros ->. done.
  - intros u. eexists. split; [by apply main_eq|]. apply Hkeys.
Qed.

Lemma df_map_one_row_per_region_witness :
  Sample.df ≠ []
  ∧ ∃ view,
      df_map Sample.df
        (dff Sample.df (concrete 1) (concrete 1) aggregate "태양광")
      = Some view
      ∧ view = [("부산광역시", 0); ("서울특별시", 15); ("제주특별자치도", 0)]
      ∧ view.*1 = all_regions Sample.df
      ∧ (∀ g v, (g, v) ∈ view →
           v = vsum (volume <$> filter (λ r, region r = g)
                       (dff Sample.df (concrete 1) (concrete 1) aggregate
                          "태양광"))).
Proof.
  assert (Hdf : Sample.df ≠ []) by discriminate.
  split; [exact Hdf|].
  destruct (df_map_one_row_per_region Sample.df (concrete 1) (concrete 1)
              aggregate "태양광" Hdf)
    as (view & Hview & Hkeys & _ & _ & _ & Hsum & _).
  exists view. split; [exact Hview|].
  split; [|split; [exact Hkeys|exact Hsum]].
  assert (Hrun : df_map Sample.df
                   (dff Sample.df (concrete 1) (concrete 1) aggregate
                      "태양광")
                 = Some [("부산광역시", 0); ("서울특별시", 15);
                         ("제주특별자치도", 0)])
    by (vm_compute; reflexivity).
  rewrite Hrun in Hview. by injection Hview as <-.
Defined.

(** C2 as stated fails for the volumes the file has: with [float64]
    volumes 0.1 for one region and 0.2 and 0.3 for another, the volumes
    of the region totals add up to 0.6 and the volumes of the filtered
    rows to 0.6000000000000001. *)
Lemma df_map_float_sums_differ :
  ∃ view,
    df_map Sample.float_df
      (dff Sample.float_df aggregate aggregate aggregate "합계") = Some view
    ∧ vsum view.*2 = 0.6%float
    ∧ vsum (volume <$>
              dff Sample.float_df aggregate aggregate aggregate "합계")
      = 0.6000000000000001%float
    ∧ vsum view.*2
      ≠ vsum (volume <$>
                dff Sample.float_df aggregate aggregate aggregate "합계").
Proof.
  eexists. split; [vm_compute; reflexivity|].
  split; [vm_compute; reflexivity|]. split; [vm_compute; reflexivity|].
  intros Hsame.
  apply (f_equal (λ x, PrimFloat.eqb x 0.6%float)) in Hsame.
  vm_compute in Hsame. discriminate Hsame.
Qed.

(** C2, as the code has it.  For every loaded frame that has rows and
    every choice of the four filters, the region totals are made, and
    with exact addition of volumes their volumes add up to the volume
    of the filtered frame. *)
Theorem df_map_conserves_volume {V} `{VolumeLaws V} (df : list (row V))
    (month_sel day_sel hour_sel : selection) (source_sel : string) :
  df ≠ [] →
  let sub := dff df month_sel day_sel hour_sel source_sel in
  ∃ view,
    df_map df sub = Some view
    ∧ vsum view.*2 = vsum (volume <$> sub).
Proof.
  intros Hdf sub. eexists. split; [by apply df_map_eq|].
  rewrite <- list_fmap_compose.
  apply (vsum_group_totals region volume).
  - apply NoDup_all_regions.
  - intros r Hr. apply elem_of_all_regions. exists r. split; [|done].
    by apply dff_subseteq in Hr.
Qed.

Lemma df_map_conserves_volume_witness :
  VolumeLaws Z
  ∧ Sample.df ≠ []
  ∧ ∃ view,
      df_map Sample.df (dff Sample.df (concrete 1) aggregate aggregate "합계")
      = Some view
      ∧ vsum view.*2
        = vsum (volume <$>
                  dff Sample.df (concrete 1) aggregate aggregate "합계").
Proof.
  assert (Hdf : Sample.df ≠ []) by discriminate.
  split; [exact Z_volume_laws|]. split; [exact Hdf|].
  exact (df_map_conserves_volume Sample.df (concrete 1) aggregate aggregate
           "합계" Hdf).
Defined.

(** C3, as the code has it.  The hourly frame is computed exactly when
    no hour is selected.  It then has the rows of the frame grouped by
    hour and region, in the order of the grouped frame: one row per
    pair of an hour and a region that has rows in the filtered frame,
    with the sum of their volumes.  The right join against
    [all_regions] adds no row and the fill changes no cell. *)
Theorem df_anim_grouped_rows {V} `{Volume V} (df : list (row V))
    (month_sel day_sel hour_sel : selection) (source_sel : string) :
  let sub := dff df month_sel day_sel hour_sel source_sel in
  let grouped := groupby_sum (λ r, (hour r, region r)) volume sub in
  (is_Some (df_anim df sub hour_sel) ↔ hour_sel = aggregate)
  ∧ df_anim df sub aggregate
    = Some ((λ p, (p.1.2, p.1.1, p.2)) <$> grouped)
  ∧ NoDup grouped.*1
  ∧ (∀ g h v, (g, h, v) ∈ (λ p, (p.1.2, p.1.1, p.2)) <$> grouped ↔
       (∃ r, r ∈ sub ∧ hour r = h ∧ region r = g) ∧
       v = vsum (volume <$> filter (λ r, hour r = h ∧ region r = g) sub))
  ∧ (∀ u c, main df u = Some c →
       (is_Some (fig_anim c) ↔ hour_selected df u = aggregate)).
Proof.
  assert (Hwhen : ∀ sub' sel,
            is_Some (df_anim df sub' sel) ↔ sel = aggregate).
  { intros sub' sel. destruct sel; simpl; split; (done || by intros []). }
  intros sub grouped.
  split_and!;
    [..|intros u c (_ & _ & _ & ->)%main_Some; apply Hwhen].
  - apply Hwhen.
  - unfold df_anim. f_equal. fold grouped.
    rewrite merge_right_key_frame.
    + rewrite <- !list_fmap_compose. apply list_fmap_ext.
      by intros i [[h g] v] _.
    + apply NoDup_all_regions.
    + intros p (q & -> & Hq)%list_elem_of_fmap.
      destruct q as [[h g] v]. simpl.
      apply elem_of_groupby_sum in Hq as [(r & Hr & [= _ <-]) _].
      apply elem_of_all_regions. exists r. split; [|done].
      by apply dff_subseteq in Hr.
  - unfold grouped. rewrite groupby_sum_keys. apply NoDup_sorted_unique.
  - intros g h v. rewrite list_elem_of_fmap. split.
    + intros ([[h' g'] v'] & [= -> -> ->] & Hp).
      apply elem_of_groupby_sum in Hp as [(r & Hr & [= <- <-]) ->].
      split; [by exists r|].
      unfold group_total. do 2 f_equal.
      apply list_filter_iff. intros r'. split; [by intros [= -> ->]|].
      by intros [-> ->].
    + intros [(r & Hr & <- & <-) ->].
      exists (hour r, region r,
              group_total (λ r, (hour r, region r)) volume sub
                (hour r, region r)).
      split.
      * simpl. do 2 f_equal. unfold group_total. do 2 f_equal.
        apply list_filter_iff. intros r'. split; [by intros [-> ->]|].
        by intros [= -> ->].
      * apply elem_of_groupby_sum. split; [by exists r|done].
Qed.

(** C3 as stated fails: with every filter on ["합계"], the sample frame
    has rows at hour 2 and a region 서울특별시, but its hourly frame has
    no row for hour 2 in 서울특별시. *)
Lemma df_anim_not_zero_filled :
  ∃ view,
    fig_anim <$> main Sample.df Sample.everything = Some (Some view)
    ∧ df_anim Sample.df (dff Sample.df aggregate aggregate aggregate "합계")
        aggregate = Some view
    ∧ ¬ hourly_zero_filled Sample.df
          (dff Sample.df aggregate aggregate aggregate "합계") view.
Proof.
  eexists. split; [vm_compute; reflexivity|].
  split; [vm_compute; reflexivity|].
  intros Hfill.
  destruct (Hfill 2 "서울특별시") as (v & Hv & _).
  - vm_compute. do 3 right. left.
  - vm_compute. right. left.
  - repeat (apply elem_of_cons in Hv as [Hv|Hv]; [discriminate Hv|]).
    by apply elem_of_nil in Hv.
Qed.

(** C4. Every row of the loaded frame carries the date and the hour
    index of a row of the file; its timestamp is midnight of that date
    plus (hour index - 1) hours, to the nanosecond, and its month, day
    and hour are those of the timestamp. *)
Theorem load_data_timestamp {V} (csv : list (raw_row V)) (r : row V) :
  r ∈ load_data csv →
  (∃ raw, raw ∈ csv ∧
     trade_date r = raw_date raw ∧ trade_hour r = raw_hour raw)
  ∧ time r = to_datetime (trade_date r) + (trade_hour r - 1) * NS_PER_HOUR
  ∧ month r = dt_month (time r)
  ∧ day r = dt_day (time r)
  ∧ hour r = dt_hour (time r).
Proof.
  intros (raw & Hraw & _ & ->)%elem_of_load_data. split; [|done].
  by exists raw.
Qed.

Lemma load_data_timestamp_witness :
  ∃ r : row Z,
    r ∈ load_data Sample.csv
    ∧ trade_date r = Date 2024 1 1 ∧ trade_hour r = 24
    ∧ time r = 1704067200000000000 + 23 * 3600000000000
    ∧ month r = 1 ∧ day r = 1 ∧ hour r = 23.
Proof.
  exists (Row Sample.jan1 24 "부산광역시" "풍력" 7 1704150000000000000 1 1 23).
  assert (Hin : Row Sample.jan1 24 "부산광역시" "풍력" 7
                  1704150000000000000 1 1 23 ∈ load_data Sample.csv)
    by (vm_compute; do 2 right; left).
  destruct (load_data_timestamp _ _ Hin) as (_ & Ht & Hm & Hd & Hh).
  split_and!;
    [exact Hin|reflexivity|reflexivity|exact Ht|exact Hm|exact Hd|exact Hh].
Defined.



(** C5. No row of the loaded frame has a key of the normalisation
    table as its region: a row of the file with such a region is loaded
    with the canonical name, so it is summed with the rows that carry
    the canonical name already.  On the two rows of the example, 10 MWh
    for 서울시 and 5 MWh for 서울특별시, the totals for month 1, day 1,
    every hour and 태양광 are one row of 15 for 서울특별시; on the sample
    file every other region has 0. *)
Theorem load_data_normalizes_regions :
  (∀ V (csv : list (raw_row V)) (k : string) (r : row V),
     k ∈ dom region_mapping → r ∈ load_data csv → region r ≠ k)
  ∧ (∀ V (csv : list (raw_row V)) (raw : raw_row V) (c : string),
       raw ∈ csv → region_mapping !! raw_region raw = Some c →
       ∃ r, r ∈ load_data csv ∧ region r = c ∧ volume r = raw_volume raw
            ∧ fuel r = raw_fuel raw ∧ trade_date r = raw_date raw
            ∧ trade_hour r = raw_hour raw)
  ∧ fig_map <$> main (load_data Sample.seoul_csv) Sample.solar_jan1
    = Some [("서울특별시", 15)]
  ∧ fig_map <$> main (load_data Sample.csv) Sample.solar_jan1
    = Some [("부산광역시", 0); ("서울특별시", 15); ("제주특별자치도", 0)].
Proof.
  split_and!.
  - intros V csv k r [c Hk]%elem_of_dom
      (raw & _ & _ & ->)%elem_of_load_data <-.
    simpl in Hk. by rewrite replace_not_key in Hk.
  - intros V csv raw c Hraw Hc.
    exists (set_region (replace region_mapping (raw_region raw))
              (with_time raw)).
    split_and!; try done.
    + apply elem_of_load_data. exists raw. split_and!; try done.
      intros Hm. rewrite Hm in Hc. by vm_compute in Hc.
    + simpl. unfold replace. by rewrite Hc.
  - by vm_compute.
  - by vm_compute.
Qed.

(** C6. No row of the loaded frame has the region 육지, whatever the
    file holds. *)
Theorem load_data_drops_mainland {V} (csv : list (raw_row V)) (r : row V) :
  r ∈ load_data csv → region r ≠ "육지".
Proof.
  intros (raw & _ & Hne & ->)%elem_of_load_data. simpl.
  by apply replace_not_mainland.
Qed.

Lemma load_data_drops_mainland_witness :
  Row Sample.jan1 1 "서울특별시" "태양광" 10 1704067200000000000 1 1 0
    ∈ load_data Sample.csv
  ∧ "서울특별시" ≠ "육지"
  ∧ length (filter (λ raw, raw_region raw = "육지") Sample.csv) = 2%nat.
Proof.
  assert (Hin : Row Sample.jan1 1 "서울특별시" "태양광" 10
                  1704067200000000000 1 1 0 ∈ load_data Sample.csv)
    by (vm_compute; left).
  split_and!;
    [exact Hin|exact (load_data_drops_mainland _ _ Hin)|reflexivity].
Defined.

(** C7 as stated fails: the table has 10 entries, not 11. *)
Lemma region_mapping_size_not_11 : size region_mapping ≠ 11%nat.
Proof. by vm_compute. Qed.

(** C7, as the code has it.  The table has exactly 10 entries, from
    short names to full administrative names, among them 서울시 for
    서울특별시, and both 제주 and 제주도 for 제주특별자치도. *)
Theorem region_mapping_entries :
  size region_mapping = 10%nat
  ∧ map_to_list region_mapping ≡ₚ [
      ("서울시", "서울특별시"); ("부산시", "부산광역시");
      ("대구시", "대구광역시"); ("인천시", "인천광역시");
      ("광주시", "광주광역시"); ("대전시", "대전광역시");
      ("울산시", "울산광역시"); ("세종시", "세종특별자치시");
      ("제주", "제주특별자치도"); ("제주도", "제주특별자치도") ]
  ∧ region_mapping !! "서울시" = Some "서울특별시"
  ∧ region_mapping !! "제주" = Some "제주특별자치도"
  ∧ region_mapping !! "제주도" = Some "제주특별자치도".
Proof.
  split_and!; try by vm_compute.
  unfold region_mapping. apply map_to_list_to_map.
  apply (bool_decide_unpack _). by vm_compute.
Qed.

(** C10. No target of the normalisation table is a key of it, so
    normalising a region name twice gives what normalising it once
    gives, for a cell and for the region column of a frame. *)
Theorem replace_region_mapping_idempotent :
  (∀ k c : string,
     region_mapping !! k = Some c → region_mapping !! c = None)
  ∧ (∀ x : string,
       replace region_mapping (replace region_mapping x)
       = replace region_mapping x)
  ∧ (∀ V (df : list (row V)),
       let normalize :=
         fmap (λ r, set_region (replace region_mapping (region r)) r) in
       normalize (normalize df) = normalize df).
Proof.
  assert (Hcell : ∀ x : string,
            replace region_mapping (replace region_mapping x)
            = replace region_mapping x).
  { intros x. unfold replace at 1. by rewrite replace_not_key. }
  split_and!.
  - apply region_mapping_target_not_key.
  - exact Hcell.
  - intros V df normalize. unfold normalize.
    rewrite <- list_fmap_compose. apply list_fmap_ext.
    intros i r _. simpl. unfold set_region. simpl. by rewrite Hcell.
Qed.

(** C8. The day selector offers ["합계"] and the distinct days of the
    rows of the loaded frame in the selected month; the hour selector
    offers ["합계"] and the distinct hours of the rows in the selected
    month and day; the selection made is one of the options offered.
    With the month on ["합계"] the day is ["합계"], and with the month
    or the day on ["합계"] the hour is ["합계"].  The options are
    computed from the current selections, so none is left from an
    earlier one. *)
Theorem selectors_follow_selection {V} (df : list (row V)) (u : user) :
  (month_selected df u = aggregate → day_selected df u = aggregate)
  ∧ (month_selected df u = aggregate ∨ day_selected df u = aggregate →
     hour_selected df u = aggregate)
  ∧ (∀ selected_month, month_selected df u = concrete selected_month →
       let offered := with_total (day_options df selected_month) in
       day_selected df u = selectbox offered (pick_day u)
       ∧ day_selected df u ∈ offered
       ∧ NoDup offered
       ∧ ∀ s, s ∈ offered ↔
           s = aggregate ∨
           ∃ r, r ∈ df ∧ month r = selected_month ∧ s = concrete (day r))
  ∧ (∀ selected_month selected_day,
       month_selected df u = concrete selected_month →
       day_selected df u = concrete selected_day →
       let offered :=
         with_total (hour_options df selected_month selected_day) in
       hour_selected df u = selectbox offered (pick_hour u)
       ∧ hour_selected df u ∈ offered
       ∧ NoDup offered
       ∧ ∀ s, s ∈ offered ↔
           s = aggregate ∨
           ∃ r, r ∈ df ∧ month r = selected_month
                ∧ day r = selected_day ∧ s = concrete (hour r)).
Proof.
  assert (Hnodup : ∀ l : list Z, NoDup l → NoDup (with_total l)).
  { intros l Hl. unfold with_total. constructor.
    - by intros (n & ? & _)%list_elem_of_fmap.
    - assert (Inj (=) (=) concrete) by (by intros n1 n2 [= ->]).
      by apply (NoDup_fmap_2 _). }
  split_and!.
  - unfold day_selected. by intros ->.
  - unfold hour_selected. intros [->| ->]; [done|].
    by destruct (month_selected df u).
  - intros sm Hm offered. unfold day_selected. rewrite Hm.
    split_and!; [done|by apply selectbox_elem_of| |].
    + apply Hnodup, NoDup_sorted_unique.
    + intros s. unfold offered. rewrite elem_of_with_total.
      setoid_rewrite elem_of_day_options. naive_solver.
  - intros sm sd Hm Hd offered. unfold hour_selected. rewrite Hm, Hd.
    split_and!; [done|by apply selectbox_elem_of| |].
    + apply Hnodup, NoDup_sorted_unique.
    + intros s. unfold offered. rewrite elem_of_with_total.
      setoid_rewrite elem_of_hour_options. naive_solver.
Qed.

End properties.

(** * More facts about the calendar *)

Section calendar_more.
Import Calendar.

Lemma doe_ok :
  forallb (λ a,
    forallb (λ b, doe_case_ok (a * 1000 + b)) (seqZ 0 1000)) (seqZ 0 147)
  = true.
Proof. vm_cast_no_check (eq_refl true). Qed.

Lemma doe_case (doe : Z) : 0 ≤ doe < 146097 → doe_case_ok doe = true.
Proof.
  intros Hd. pose proof doe_ok as H.
  apply (forallb_seqZ _ _ _ (doe / 1000)) in H;
    [|split; [apply Z.div_pos; lia|apply Z.div_lt_upper_bound; lia]].
  apply (forallb_seqZ _ _ _ (doe mod 1000)) in H;
    [|apply Z.mod_pos_bound; lia].
  rewrite (Z.div_mod doe 1000) at 1 by lia.
  by rewrite (Z.mul_comm 1000).
Qed.

Lemma era_of_day (z : Z) :
  let era := (z + 719468) / 146097 in
  0 ≤ z + 719468 - era * 146097 < 146097.
Proof.
  intros era. subst era.
  pose proof (Z.mod_pos_bound (z + 719468) 146097 eq_refl) as Hb.
  rewrite Z.mod_eq in Hb by lia. lia.
Qed.

(** Every day number has a calendar date. *)
Lemma valid_date_civil_from_days (z : Z) :
  valid_date (civil_from_days z) = true.
Proof.
  pose proof (era_of_day z) as Hdoe. cbv zeta in Hdoe.
  cbv beta zeta delta [civil_from_days].
  set (era := (z + 719468) / 146097) in *.
  set (doe := z + 719468 - era * 146097) in *.
  pose proof (doe_case doe Hdoe) as Hc. unfold doe_case_ok in Hc.
  replace (doe <? 146097) with true in Hc by (symmetry; apply Z.ltb_lt; lia).
  cbn [implb] in Hc.
  destruct (civil_of_doe doe) as [[yoe m] d].
  rewrite !andb_true_iff, !Z.leb_le, Z.ltb_lt, Z.eqb_eq in Hc.
  destruct Hc as [[[[[[Hy0 Hy1] Hm0] Hm1] Hd0] Hd1] Hback].
  unfold valid_date. cbn [dyear dmonth dday].
  replace (yoe + era * 400 + year_shift m)
    with (yoe + year_shift m + era * 400) by lia.
  unfold days_in_month in *. rewrite is_leap_era.
  rewrite !andb_true_iff, !Z.leb_le. lia.
Qed.

(** The date of a day number is the date of that day number only. *)
Lemma days_from_civil_from_days (z : Z) :
  days_from_civil (civil_from_days z) = z.
Proof.
  pose proof (era_of_day z) as Hdoe. cbv zeta in Hdoe.
  cbv beta zeta delta [civil_from_days].
  set (era := (z + 719468) / 146097) in *.
  set (doe := z + 719468 - era * 146097) in *.
  pose proof (doe_case doe Hdoe) as Hc. unfold doe_case_ok in Hc.
  replace (doe <? 146097) with true in Hc by (symmetry; apply Z.ltb_lt; lia).
  cbn [implb] in Hc.
  destruct (civil_of_doe doe) as [[yoe m] d].
  rewrite !andb_true_iff, !Z.leb_le, Z.ltb_lt, Z.eqb_eq in Hc.
  destruct Hc as [[[[[[Hy0 Hy1] Hm0] Hm1] Hd0] Hd1] Hback].
  cbv beta zeta delta [days_from_civil]. cbn [dyear dmonth dday].
  replace (yoe + era * 400 + year_shift m - year_shift m)
    with (yoe + era * 400) by lia.
  rewrite (Z.div_add yoe era 400), (Z.div_small yoe) by lia.
  replace (0 + era) with era by lia.
  replace (yoe + era * 400 - era * 400) with yoe by lia.
  rewrite Hback. subst doe. lia.
Qed.

(** An hour offset of any size, split into whole days and an hour of
    the day. *)
Lemma hours_split (days n : Z) :
  days * NS_PER_DAY + to_timedelta_h n
  = (days + n / 24) * NS_PER_DAY + to_timedelta_h (n mod 24).
Proof.
  unfold to_timedelta_h, NS_PER_DAY.
  rewrite (Z.div_mod n 24) at 1 by lia. lia.
Qed.

Lemma dt_hour_any (days n : Z) :
  dt_hour (days * NS_PER_DAY + to_timedelta_h n) = n mod 24.
Proof.
  rewrite hours_split. apply dt_hour_within_day.
  apply Z.mod_pos_bound. lia.
Qed.

Lemma dt_date_any (days n : Z) :
  dt_date (days * NS_PER_DAY + to_timedelta_h n)
  = civil_from_days (days + n / 24).
Proof.
  rewrite hours_split. apply dt_date_within_day.
  apply Z.mod_pos_bound. lia.
Qed.

End calendar_more.

(** * More facts about the program *)

Section app_more.
Import Calendar Frame App.

Lemma replace_fixed_iff (x : string) :
  replace region_mapping x = x ↔ region_mapping !! x = None.
Proof.
  unfold replace. destruct (region_mapping !! x) as [c|] eqn:Hx; simpl.
  - split; [|done]. intros ->.
    apply region_mapping_target_not_key in Hx as Hnone. congruence.
  - done.
Qed.

Context {V : Type} `{Volume V}.
Implicit Types (csv : list (raw_row V)) (df sub : list (row V)).
Implicit Types (r : row V) (raw : raw_row V) (g : string).

(** The loader as one pass over the rows it keeps. *)
Lemma load_data_eq csv :
  load_data csv
  = (λ raw, set_region (replace region_mapping (raw_region raw))
              (with_time raw))
      <$> filter (λ raw, raw_region raw ≠ "육지") csv.
Proof.
  unfold load_data. rewrite filter_fmap. rewrite <- list_fmap_compose.
  f_equal. apply list_filter_iff. intros raw. simpl. unfold isin.
  rewrite Is_true_true, negb_true_iff, bool_decide_eq_false.
  by rewrite list_elem_of_singleton.
Qed.

Lemma elem_of_where_eq (col : row V → Z) sel sub r :
  r ∈ where_eq col sel sub ↔ r ∈ sub ∧ passes sel (col r).
Proof.
  destruct sel as [|n]; simpl; [tauto|].
  rewrite list_elem_of_filter. tauto.
Qed.

Lemma where_eq_filter (col : row V → Z) sel sub :
  where_eq col sel sub = filter (λ r, passes sel (col r)) sub.
Proof.
  destruct sel as [|n]; simpl; [|done].
  symmetry. induction sub as [|r sub IH]; [done|].
  by rewrite filter_cons_True, IH.
Qed.

Lemma elem_of_dff df month_sel day_sel hour_sel source_sel r :
  r ∈ dff df month_sel day_sel hour_sel source_sel ↔
  r ∈ df ∧ passes month_sel (month r) ∧ passes day_sel (day r)
  ∧ passes hour_sel (hour r) ∧ (source_sel = "합계" ∨ fuel r = source_sel).
Proof.
  unfold dff. case_decide as Hs.
  - rewrite list_elem_of_filter, !elem_of_where_eq. naive_solver.
  - rewrite !elem_of_where_eq.
    destruct (decide (source_sel = "합계")); naive_solver.
Qed.

End app_more.

(** * Further properties of the loader *)

Section loader_properties.
Import Calendar Frame App.

(** X1. The loader keeps the rows whose region is not 육지, and only
    those, in the order of the file: the loaded frame has as many rows
    as the file has such rows, and their date, hour index, fuel and
    volume cells are the cells of the file. *)
Theorem load_data_keeps_other_rows {V} (csv : list (raw_row V)) :
  let kept := filter (λ raw, raw_region raw ≠ "육지") csv in
  (length (load_data csv)
   + length (filter (λ raw, raw_region raw = "육지") csv) = length csv)%nat
  ∧ trade_date <$> load_data csv = raw_date <$> kept
  ∧ trade_hour <$> load_data csv = raw_hour <$> kept
  ∧ fuel <$> load_data csv = raw_fuel <$> kept
  ∧ volume <$> load_data csv = raw_volume <$> kept
  ∧ region <$> load_data csv
    = (λ raw, replace region_mapping (raw_region raw)) <$> kept.
Proof.
  intros kept. rewrite load_data_eq. fold kept.
  rewrite <- !list_fmap_compose. split_and!; try done.
  rewrite length_fmap. subst kept.
  rewrite <- (length_app (filter _ csv)).
  apply Permutation_length.
  rewrite Permutation_app_comm.
  rewrite <- (filter_app_complement (λ raw, raw_region raw = "육지") csv) at 3.
  done.
Qed.

(** X2. A loaded row has the region of its row of the file unless that
    region is a key of the normalisation table; then it has the name
    stored under the key.  So a name outside the table, canonical or
    not, is loaded as it is written. *)
Theorem load_data_region_changed_iff_key {V} (csv : list (raw_row V))
    (r : row V) :
  r ∈ load_data csv →
  ∃ raw, raw ∈ csv
    ∧ trade_date r = raw_date raw ∧ trade_hour r = raw_hour raw
    ∧ fuel r = raw_fuel raw ∧ volume r = raw_volume raw
    ∧ region r = default (raw_region raw) (region_mapping !! raw_region raw)
    ∧ (region r = raw_region raw ↔ region_mapping !! raw_region raw = None).
Proof.
  intros (raw & Hraw & _ & ->)%elem_of_load_data. exists raw.
  split_and!; try done. simpl. apply replace_fixed_iff.
Qed.

Lemma load_data_region_changed_iff_key_witness :
  Sample.busan_row ∈ load_data Sample.csv
  ∧ ∃ raw, raw ∈ Sample.csv
      ∧ trade_date Sample.busan_row = raw_date raw
      ∧ trade_hour Sample.busan_row = raw_hour raw
      ∧ fuel Sample.busan_row = raw_fuel raw ∧ volume Sample.busan_row = raw_volume raw
      ∧ region Sample.busan_row
        = default (raw_region raw) (region_mapping !! raw_region raw)
      ∧ (region Sample.busan_row = raw_region raw
         ↔ region_mapping !! raw_region raw = None).
Proof.
  assert (Hin : Sample.busan_row ∈ load_data Sample.csv)
    by (vm_compute; do 2 right; left).
  split; [exact Hin|]. exact (load_data_region_changed_iff_key _ _ Hin).
Defined.

(** X3. The hour index is not checked.  For every loaded row the hour is
    the hour index minus one, reduced modulo 24, and the month and day
    are those of the date (hour index - 1) div 24 days after the date of
    the row: an hour index of 25 gives hour 0 of the next day, an hour
    index of 0 gives hour 23 of the day before. *)
Theorem load_data_hour_wraps {V} (csv : list (raw_row V)) (r : row V) :
  r ∈ load_data csv →
  let shifted :=
    civil_from_days
      (days_from_civil (trade_date r) + (trade_hour r - 1) / 24) in
  hour r = (trade_hour r - 1) mod 24
  ∧ month r = dmonth shifted
  ∧ day r = dday shifted.
Proof.
  intros (raw & Hraw & _ & ->)%elem_of_load_data shifted. simpl.
  unfold dt_month, dt_day, to_datetime.
  rewrite dt_hour_any, dt_date_any. done.
Qed.

Lemma load_data_hour_wraps_witness :
  Sample.jeju_row ∈ load_data Sample.csv
  ∧ hour Sample.jeju_row = 24 mod 24
  ∧ month Sample.jeju_row = dmonth (Date 2024 3 1)
  ∧ day Sample.jeju_row = dday (Date 2024 3 1).
Proof.
  assert (Hin : Sample.jeju_row ∈ load_data Sample.csv)
    by (vm_compute; do 4 right; left).
  split; [exact Hin|]. exact (load_data_hour_wraps _ _ Hin).
Defined.

(** X4. Whatever the date and the hour index of a row of the file, the
    month of the loaded row is from 1 to 12, its day is from 1 to 31,
    and its hour is from 0 to 23. *)
Theorem load_data_fields_in_range {V} (csv : list (raw_row V)) (r : row V) :
  r ∈ load_data csv →
  1 ≤ month r ≤ 12 ∧ 1 ≤ day r ≤ 31 ∧ 0 ≤ hour r ≤ 23.
Proof.
  intros (raw & Hraw & _ & ->)%elem_of_load_data. simpl.
  set (t := to_datetime (raw_date raw) + to_timedelta_h (raw_hour raw - 1)).
  pose proof (valid_date_civil_from_days (t / NS_PER_DAY)) as Hv.
  apply valid_date_bounds in Hv as [Hm Hd].
  pose proof (days_in_month_le_31 (dyear (dt_date t)) (dmonth (dt_date t))).
  unfold dt_month, dt_day, dt_hour. fold (dt_date t) in Hm, Hd.
  split_and!; try lia.
  - apply Z.div_pos; [|done]. by apply Z.mod_pos_bound.
  - assert (t mod NS_PER_DAY < NS_PER_DAY) by (by apply Z.mod_pos_bound).
    assert ((t mod NS_PER_DAY) / NS_PER_HOUR < 24); [|lia].
    apply Z.div_lt_upper_bound; [done|]. unfold NS_PER_DAY in *. lia.
Qed.

Lemma load_data_fields_in_range_witness :
  Sample.jeju_row ∈ load_data Sample.csv
  ∧ 1 ≤ month Sample.jeju_row ≤ 12 ∧ 1 ≤ day Sample.jeju_row ≤ 31
  ∧ 0 ≤ hour Sample.jeju_row ≤ 23.
Proof.
  assert (Hin : Sample.jeju_row ∈ load_data Sample.csv)
    by (vm_compute; do 4 right; left).
  split; [exact Hin|]. exact (load_data_fields_in_range _ _ Hin).
Defined.

End loader_properties.

(** * More facts about grouping *)

Section groupby_more.
Import Frame.
Context {R K V : Type} `{EqDecision K, Ordered K, Volume V}.
Context (key : R → K) (val : R → V).
Implicit Types (k : K) (rows : list R).

Lemma groupby_sum_values rows :
  (groupby_sum key val rows).*2
  = group_total key val rows <$> sorted (unique (key <$> rows)).
Proof. unfold groupby_sum. by rewrite <- list_fmap_compose. Qed.

Lemma groupby_sum_nil : groupby_sum key val [] = [].
Proof. done. Qed.

Lemma groupby_sum_length rows :
  (length (groupby_sum key val rows) ≤ length rows)%nat.
Proof.
  unfold groupby_sum. rewrite length_fmap.
  rewrite (Permutation_length (sorted_Permutation _)).
  rewrite <- (length_fmap key rows).
  generalize (key <$> rows). intros l.
  induction l as [|x l IH]; simpl; [done|].
  pose proof (length_filter (λ y, y ≠ x) (unique l)). lia.
Qed.

Lemma groupby_sum_sorted rows :
  StronglySorted key_le (groupby_sum key val rows).*1.
Proof.
  rewrite groupby_sum_keys. apply StronglySorted_merge_sort; apply _.
Qed.

Lemma groupby_sum_NoDup rows : NoDup (groupby_sum key val rows).*1.
Proof. rewrite groupby_sum_keys. apply NoDup_sorted_unique. Qed.

Context `{!VolumeLaws V}.

(** Grouping keeps the total. *)
Lemma groupby_sum_conserves rows :
  vsum (groupby_sum key val rows).*2 = vsum (val <$> rows).
Proof.
  rewrite groupby_sum_values. apply vsum_group_totals.
  - apply NoDup_sorted_unique.
  - intros r Hr. apply elem_of_sorted_unique. by apply list_elem_of_fmap_2.
Qed.

(** The groups whose key has a given part add up to the total of the
    rows whose key has that part. *)
Lemma groupby_sum_marginal {K2} `{EqDecision K2} (part : K → K2) rows (c : K2) :
  vsum (filter (λ p, part p.1 = c) (groupby_sum key val rows)).*2
  = vsum (val <$> filter (λ r, part (key r) = c) rows).
Proof.
  unfold groupby_sum. rewrite filter_fmap, <- list_fmap_compose. simpl.
  set (ks := filter (λ k, part k = c) (sorted (unique (key <$> rows)))).
  set (rows' := filter (λ r, part (key r) = c) rows).
  rewrite <- (vsum_group_totals key val ks rows').
  - f_equal. apply list_fmap_ext. intros i k Hk. simpl.
    apply list_elem_of_lookup_2, list_elem_of_filter in Hk as [Hk _].
    unfold group_total, rows'. do 2 f_equal.
    rewrite list_filter_filter. apply list_filter_iff.
    intros r. split; [|tauto]. intros ->. done.
  - apply NoDup_filter, NoDup_sorted_unique.
  - intros r [Hr Hin]%list_elem_of_filter.
    apply list_elem_of_filter. split; [done|].
    apply elem_of_sorted_unique. by apply list_elem_of_fmap_2.
Qed.

End groupby_more.

(** * More facts about the selectors and the charts *)

Section main_more.
Import Calendar Frame App.
Context {V : Type} `{Volume V}.
Implicit Types (df sub : list (row V)) (r : row V) (u : user) (g : string).

Lemma elem_of_month_options df n :
  n ∈ month_options df ↔ ∃ r, r ∈ df ∧ month r = n.
Proof.
  unfold month_options. rewrite elem_of_sorted_unique, list_elem_of_fmap.
  naive_solver.
Qed.

Lemma selectbox_with_total (options : list Z) pick n :
  selectbox (with_total options) pick = concrete n → n ∈ options.
Proof.
  intros Hsel.
  pose proof (selectbox_elem_of (with_total options) pick) as Hin.
  rewrite Hsel in Hin.
  apply elem_of_with_total in Hin as [?|(n' & Hn' & [= ->])]; done.
Qed.

Lemma month_selected_row df u n :
  month_selected df u = concrete n → ∃ r, r ∈ df ∧ month r = n.
Proof.
  intros Hn%selectbox_with_total. by apply elem_of_month_options.
Qed.

Lemma day_selected_row df u n :
  day_selected df u = concrete n →
  ∃ sm r, month_selected df u = concrete sm
          ∧ r ∈ df ∧ month r = sm ∧ day r = n.
Proof.
  unfold day_selected.
  destruct (month_selected df u) as [|sm]; [done|].
  intros Hn%selectbox_with_total.
  apply elem_of_day_options in Hn as (r & ? & ? & ?). by exists sm, r.
Qed.

Lemma hour_selected_row df u n :
  hour_selected df u = concrete n →
  ∃ sm sd r, month_selected df u = concrete sm
             ∧ day_selected df u = concrete sd
             ∧ r ∈ df ∧ month r = sm ∧ day r = sd ∧ hour r = n.
Proof.
  unfold hour_selected.
  destruct (month_selected df u) as [|sm]; [done|].
  destruct (day_selected df u) as [|sd]; [done|].
  intros Hn%selectbox_with_total.
  apply elem_of_hour_options in Hn as (r & ? & ? & ? & ?).
  by exists sm, sd, r.
Qed.

(** The hourly frame, when it is computed. *)
Lemma df_anim_eq df sub :
  sub ⊆ df →
  df_anim df sub aggregate
  = Some ((λ p, (p.1.2, p.1.1, p.2))
            <$> groupby_sum (λ r, (hour r, region r)) volume sub).
Proof.
  intros Hsub. unfold df_anim. f_equal.
  rewrite merge_right_key_frame.
  - rewrite <- !list_fmap_compose. apply list_fmap_ext.
    by intros i [[h g] v] _.
  - apply NoDup_all_regions.
  - intros p (q & -> & Hq)%list_elem_of_fmap.
    destruct q as [[h g] v]. simpl.
    apply elem_of_groupby_sum in Hq as [(r & Hr & [= _ <-]) _].
    apply elem_of_all_regions. exists r. split; [|done]. by apply Hsub.
Qed.

Lemma df_map_keys df sub view :
  df_map df sub = Some view → view.*1 = all_regions df.
Proof.
  intros [_ ->]%df_map_Some. rewrite <- list_fmap_compose.
  apply list_fmap_id.
Qed.

Lemma where_eq_comm (c1 c2 : row V → Z) s1 s2 sub :
  where_eq c1 s1 (where_eq c2 s2 sub) = where_eq c2 s2 (where_eq c1 s1 sub).
Proof.
  rewrite !where_eq_filter, !list_filter_filter.
  apply list_filter_iff. tauto.
Qed.

End main_more.

Section main_properties.
Import Calendar Frame App.

(** X5. The month selector offers ["합계"] and the distinct months of
    the loaded frame; the month selected is one of them, and it is
    ["합계"] while the user has not picked.  The numbers of the three
    selectors are offered in increasing order. *)
Theorem month_selector_options {V} (df : list (row V)) (u : user) :
  month_selected df u ∈ with_total (month_options df)
  ∧ (pick_month u = 0%nat → month_selected df u = aggregate)
  ∧ NoDup (with_total (month_options df))
  ∧ (∀ s, s ∈ with_total (month_options df) ↔
       s = aggregate ∨ ∃ r, r ∈ df ∧ s = concrete (month r))
  ∧ Sorted Z.le (month_options df)
  ∧ (∀ sm, Sorted Z.le (day_options df sm))
  ∧ (∀ sm sd, Sorted Z.le (hour_options df sm sd)).
Proof.
  split_and!.
  - by apply selectbox_elem_of.
  - unfold month_selected. by intros ->.
  - unfold with_total. constructor.
    + by intros (n & ? & _)%list_elem_of_fmap.
    + assert (Inj (=) (=) concrete) by (by intros n1 n2 [= ->]).
      apply (NoDup_fmap_2 _), NoDup_sorted_unique.
  - intros s. rewrite elem_of_with_total.
    setoid_rewrite elem_of_month_options. naive_solver.
  - exact (Sorted_sorted (K:=Z) _).
  - intros sm. exact (Sorted_sorted (K:=Z) _).
  - intros sm sd. exact (Sorted_sorted (K:=Z) _).
Qed.

(** X6. The selectors offer only months, days and hours that have rows:
    whatever the user picks in them, a loaded frame that has rows keeps
    at least one row under the month, day and hour selected, before the
    fuel is looked at. *)
Theorem selected_time_has_rows {V} (df : list (row V)) (u : user) :
  df ≠ [] →
  dff df (month_selected df u) (day_selected df u) (hour_selected df u)
    "합계" ≠ [].
Proof.
  intros Hdf.
  assert (Hrow : ∃ r, r ∈ dff df (month_selected df u) (day_selected df u)
                          (hour_selected df u) "합계").
  { setoid_rewrite elem_of_dff.
    destruct (hour_selected df u) as [|sh] eqn:Hh.
    - destruct (day_selected df u) as [|sd] eqn:Hd.
      + destruct (month_selected df u) as [|sm] eqn:Hm.
        * destruct df as [|r df]; [done|]. exists r.
          split_and!; simpl; auto. by left.
        * apply month_selected_row in Hm as (r & Hr & Hmr).
          exists r. split_and!; simpl; auto.
      + apply day_selected_row in Hd as (sm & r & -> & Hr & Hmr & Hdr).
        exists r. split_and!; simpl; auto.
    - apply hour_selected_row in Hh
        as (sm & sd & r & -> & -> & Hr & Hmr & Hdr & Hhr).
      exists r. split_and!; simpl; auto. }
  destruct Hrow as [r Hr]. intros Hnil. rewrite Hnil in Hr.
  by apply elem_of_nil in Hr.
Qed.

Lemma selected_time_has_rows_witness :
  Sample.df ≠ []
  ∧ dff Sample.df (month_selected Sample.df Sample.solar_jan1)
      (day_selected Sample.df Sample.solar_jan1)
      (hour_selected Sample.df Sample.solar_jan1) "합계" ≠ [].
Proof.
  assert (Hdf : Sample.df ≠ []) by discriminate.
  split; [exact Hdf|].
  exact (selected_time_has_rows Sample.df Sample.solar_jan1 Hdf).
Defined.

(** X7. A row is in the filtered frame exactly when it is a row of the
    loaded frame that passes the month, day and hour selectors and,
    unless the source is ["합계"], has the source as its fuel.  The
    filtered frame keeps the order of the loaded frame, the three
    selectors can be applied in any order, and filtering the filtered
    frame again changes nothing. *)
Theorem dff_rows {V} (df : list (row V))
    (month_sel day_sel hour_sel : selection) (source_sel : string) :
  let sub := dff df month_sel day_sel hour_sel source_sel in
  (∀ r, r ∈ sub ↔
     r ∈ df ∧ passes month_sel (month r) ∧ passes day_sel (day r)
     ∧ passes hour_sel (hour r)
     ∧ (source_sel = "합계" ∨ fuel r = source_sel))
  ∧ sub `sublist_of` df
  ∧ where_eq hour hour_sel (where_eq day day_sel (where_eq month month_sel df))
    = where_eq month month_sel (where_eq day day_sel (where_eq hour hour_sel df))
  ∧ dff sub month_sel day_sel hour_sel source_sel = sub.
Proof.
  intros sub.
  assert (Hsingle : ∀ l : list (row V),
    dff l month_sel day_sel hour_sel source_sel
    = filter (λ r, (source_sel = "합계" ∨ fuel r = source_sel)
                   ∧ passes hour_sel (hour r) ∧ passes day_sel (day r)
                   ∧ passes month_sel (month r)) l).
  { intros l. unfold dff. rewrite !where_eq_filter, !list_filter_filter.
    case_decide as Hs.
    - rewrite ?list_filter_filter. apply list_filter_iff. naive_solver.
    - apply list_filter_iff. intros r.
      destruct (decide (source_sel = "합계")); naive_solver. }
  split_and!.
  - intros r. apply elem_of_dff.
  - unfold sub. rewrite Hsingle. apply sublist_filter.
  - rewrite (where_eq_comm (@hour V) (@day V)).
    rewrite (where_eq_comm (@hour V) (@month V)).
    by rewrite (where_eq_comm (@day V) (@month V)).
  - unfold sub. rewrite !Hsingle, list_filter_filter.
    apply list_filter_iff. tauto.
Qed.

End main_properties.

Section chart_properties.
Import Calendar Frame App.

(** The hourly frame has the columns of the grouped frame in another
    order. *)
Lemma hourly_columns_values {V} (l : list (Z * string * V)) :
  ((λ p, (p.1.2, p.1.1, p.2)) <$> l).*2 = l.*2.
Proof. induction l as [|p l IH]; csimpl; [done|]. by rewrite IH. Qed.

Lemma hourly_columns_filter {V} (l : list (Z * string * V)) (g : string) :
  filter (λ p : string * Z * V, p.1.1 = g)
    ((λ p, (p.1.2, p.1.1, p.2)) <$> l)
  = (λ p, (p.1.2, p.1.1, p.2)) <$> filter (λ p, p.1.2 = g) l.
Proof. by rewrite filter_fmap. Qed.

(** X8. The source selector starts on 태양광, not on ["합계"]: while the
    user has picked neither a month nor a source, the charts are drawn
    from the 태양광 rows of the whole loaded frame, and from no other
    row. *)
Theorem first_page_is_solar {V} (df : list (row V)) (u : user) :
  pick_month u = 0%nat → pick_source u = 0%nat →
  source_selected u = "태양광"
  ∧ dff df (month_selected df u) (day_selected df u) (hour_selected df u)
      (source_selected u)
    = filter (λ r, fuel r = "태양광") df.
Proof.
  intros Hm Hs.
  unfold hour_selected, day_selected, month_selected, source_selected.
  rewrite Hm, Hs. done.
Qed.

Lemma first_page_is_solar_witness :
  pick_month (User 0 3 5 0) = 0%nat ∧ pick_source (User 0 3 5 0) = 0%nat
  ∧ source_selected (User 0 3 5 0) = "태양광"
  ∧ dff Sample.df (month_selected Sample.df (User 0 3 5 0))
      (day_selected Sample.df (User 0 3 5 0))
      (hour_selected Sample.df (User 0 3 5 0))
      (source_selected (User 0 3 5 0))
    = filter (λ r, fuel r = "태양광") Sample.df.
Proof.
  split; [reflexivity|]. split; [reflexivity|].
  exact (first_page_is_solar Sample.df (User 0 3 5 0) eq_refl eq_refl).
Defined.

(** X9. The line-chart frame has one row for each pair of a timestamp
    and a region that has rows in the filtered frame, and no other row:
    nothing is filled in.  The volume of a row is the sum of the
    volumes of the filtered rows of its pair; the rows are ordered by
    timestamp, then region; an empty filtered frame gives an empty
    frame. *)
Theorem df_line_rows {V} `{Volume V} (sub : list (row V)) :
  (∀ t g v, (t, g, v) ∈ df_line sub ↔
     (∃ r, r ∈ sub ∧ time r = t ∧ region r = g) ∧
     v = vsum (volume <$> filter (λ r, time r = t ∧ region r = g) sub))
  ∧ NoDup (df_line sub).*1
  ∧ StronglySorted lex_le (df_line sub).*1
  ∧ (length (df_line sub) ≤ length sub)%nat
  ∧ (sub = [] → df_line sub = []).
Proof.
  unfold df_line. split_and!.
  - intros t g v. rewrite elem_of_groupby_sum.
    assert (Hsum : group_total (λ r : row V, (time r, region r)) volume sub (t, g)
                   = vsum (volume <$>
                       filter (λ r, time r = t ∧ region r = g) sub)).
    { unfold group_total. do 2 f_equal. apply list_filter_iff.
      intros r. split; [by intros [= -> ->]|by intros [-> ->]]. }
    rewrite Hsum. split.
    + intros [(r & Hr & [= <- <-]) ->]. split; [by exists r|done].
    + intros [(r & Hr & <- & <-) ->]. split; [by exists r|done].
  - apply groupby_sum_NoDup.
  - exact (groupby_sum_sorted (K:=Z * string) _ _ _).
  - apply groupby_sum_length.
  - by intros ->.
Qed.

(** X10. With exact addition of volumes, the line-chart frame and the
    hourly frame hold the whole volume of the filtered frame: their
    volumes add up to the sum of the volumes of the filtered rows. *)
Theorem line_and_hourly_conserve_volume {V} `{VolumeLaws V}
    (df : list (row V)) (month_sel day_sel hour_sel : selection)
    (source_sel : string) :
  let sub := dff df month_sel day_sel hour_sel source_sel in
  vsum (df_line sub).*2 = vsum (volume <$> sub)
  ∧ ∀ view, df_anim df sub aggregate = Some view →
      vsum view.*2 = vsum (volume <$> sub).
Proof.
  intros sub. split.
  - exact (groupby_sum_conserves (λ r, (time r, region r)) volume sub).
  - intros view. rewrite df_anim_eq by apply dff_subseteq.
    intros [= <-]. rewrite hourly_columns_values.
    exact (groupby_sum_conserves (λ r, (hour r, region r)) volume sub).
Qed.

Lemma line_and_hourly_conserve_volume_witness :
  VolumeLaws Z
  ∧ vsum (df_line (dff Sample.df aggregate aggregate aggregate "풍력")).*2
    = vsum (volume <$> dff Sample.df aggregate aggregate aggregate "풍력").
Proof.
  split; [exact Z_volume_laws|].
  exact (proj1 (line_and_hourly_conserve_volume Sample.df
                  aggregate aggregate aggregate "풍력")).
Defined.

(** X11. With exact addition of volumes, the three frames agree region
    by region: the volume of a region in the region totals is the sum
    of the volumes of its rows in the line-chart frame, and the sum of
    the volumes of its rows in the hourly frame. *)
Theorem df_map_is_marginal {V} `{VolumeLaws V}
    (df : list (row V)) (month_sel day_sel hour_sel : selection)
    (source_sel : string) (g : string) (v : V) :
  let sub := dff df month_sel day_sel hour_sel source_sel in
  ∀ totals, df_map df sub = Some totals → (g, v) ∈ totals →
  v = vsum (filter (λ p, p.1.2 = g) (df_line sub)).*2
  ∧ ∀ view, df_anim df sub aggregate = Some view →
      v = vsum (filter (λ p, p.1.1 = g) view).*2.
Proof.
  intros sub totals [_ ->]%df_map_Some.
  intros (g' & [= -> ->] & _)%list_elem_of_fmap. split.
  - unfold df_line.
    by rewrite (groupby_sum_marginal _ _ (λ k : Z * string, k.2)).
  - intros view. rewrite df_anim_eq by apply dff_subseteq.
    intros [= <-]. rewrite hourly_columns_filter, hourly_columns_values.
    by rewrite (groupby_sum_marginal _ _ (λ k : Z * string, k.2)).
Qed.

Lemma df_map_is_marginal_witness :
  VolumeLaws Z
  ∧ df_map Sample.df (dff Sample.df aggregate aggregate aggregate "합계")
    = Some [("부산광역시", 11); ("서울특별시", 15); ("제주특별자치도", 3)]
  ∧ 11 = vsum (filter (λ p, p.1.2 = "부산광역시")
                 (df_line (dff Sample.df aggregate aggregate aggregate
                             "합계"))).*2.
Proof.
  assert (Hrun : df_map Sample.df
                   (dff Sample.df aggregate aggregate aggregate "합계")
                 = Some [("부산광역시", 11); ("서울특별시", 15);
                         ("제주특별자치도", 3)])
    by (vm_compute; reflexivity).
  assert (Hin : ("부산광역시", 11)
                  ∈ [("부산광역시", 11); ("서울특별시", 15);
                     ("제주특별자치도", 3)]) by left.
  split; [exact Z_volume_laws|]. split; [exact Hrun|].
  exact (proj1 (df_map_is_marginal Sample.df aggregate aggregate aggregate
                  "합계" "부산광역시" 11 _ Hrun Hin)).
Defined.

End chart_properties.

Section end_to_end.
Import Calendar Frame App.

(** X12. From the file to the heat map: when the file has a row whose
    region is not 육지, the page is drawn whatever the user picks, and
    the regions of the region totals are the normalised names of the
    rows of the file whose region is not 육지.  None of them is 육지
    and none is a key of the normalisation table. *)
Theorem heat_map_regions {V} `{Volume V} (csv : list (raw_row V))
    (u : user) :
  load_data csv ≠ [] →
  ∃ c, main (load_data csv) u = Some c
    ∧ (∀ g, g ∈ (fig_map c).*1 ↔
         ∃ raw, raw ∈ csv ∧ raw_region raw ≠ "육지"
                ∧ replace region_mapping (raw_region raw) = g)
    ∧ (∀ g, g ∈ (fig_map c).*1 →
         g ≠ "육지" ∧ region_mapping !! g = None).
Proof.
  intros Hdf. eexists. split; [by apply main_eq|]. cbn [fig_map].
  rewrite <- list_fmap_compose, list_fmap_id.
  assert (Hiff : ∀ g, g ∈ all_regions (load_data csv) ↔
                 ∃ raw, raw ∈ csv ∧ raw_region raw ≠ "육지"
                        ∧ replace region_mapping (raw_region raw) = g).
  { intros g. rewrite elem_of_all_regions.
    setoid_rewrite elem_of_load_data. split.
    - intros (r & (raw & Hraw & Hne & ->) & <-). by exists raw.
    - intros (raw & Hraw & Hne & <-). eexists. split; [by exists raw|done]. }
  split; [exact Hiff|].
  intros g (raw & Hraw & Hne & <-)%Hiff. split.
  - by apply replace_not_mainland.
  - apply replace_not_key.
Qed.

Lemma heat_map_regions_witness :
  load_data Sample.csv ≠ []
  ∧ ∃ c, main (load_data Sample.csv) Sample.solar_jan1 = Some c
      ∧ (∀ g, g ∈ (fig_map c).*1 ↔
           ∃ raw, raw ∈ Sample.csv ∧ raw_region raw ≠ "육지"
                  ∧ replace region_mapping (raw_region raw) = g)
      ∧ (∀ g, g ∈ (fig_map c).*1 →
           g ≠ "육지" ∧ region_mapping !! g = None).
Proof.
  assert (Hdf : load_data Sample.csv ≠ []) by (vm_compute; discriminate).
  split; [exact Hdf|].
  exact (heat_map_regions Sample.csv Sample.solar_jan1 Hdf).
Defined.

(** X13. The page is drawn exactly when the file has a row whose region
    is not 육지.  A file whose rows are all 육지 rows, and so an empty
    file, loads to an empty frame; every selector is then on ["합계"],
    the merge of the region totals raises, and no chart is drawn. *)
Theorem mainland_only_file_draws_nothing {V} `{Volume V}
    (csv : list (raw_row V)) (u : user) :
  (main (load_data csv) u = None ↔
   ∀ raw, raw ∈ csv → raw_region raw = "육지")
  ∧ ((∀ raw, raw ∈ csv → raw_region raw = "육지") →
     load_data csv = []
     ∧ month_selected (load_data csv) u = aggregate
     ∧ day_selected (load_data csv) u = aggregate
     ∧ hour_selected (load_data csv) u = aggregate).
Proof.
  assert (Hnil : load_data csv = [] ↔
                 ∀ raw, raw ∈ csv → raw_region raw = "육지").
  { split.
    - intros Hnil raw Hraw.
      destruct (decide (raw_region raw = "육지")) as [|Hne]; [done|].
      exfalso.
      assert (Hin : set_region (replace region_mapping (raw_region raw))
                      (with_time raw) ∈ load_data csv)
        by (apply elem_of_load_data; by exists raw).
      rewrite Hnil in Hin. by apply elem_of_nil in Hin.
    - intros Hall. rewrite load_data_eq, filter_none; [done|].
      intros raw Hraw Hne. by apply Hne, Hall. }
  split.
  - rewrite <- Hnil. split.
    + destruct (load_data csv) as [|r df] eqn:Hdf; [done|].
      by rewrite main_eq.
    + by intros ->.
  - intros Hall%Hnil. rewrite Hall.
    assert (Hm : month_selected (@nil (row V)) u = aggregate).
    { unfold month_selected, selectbox. simpl.
      by destruct (pick_month u) as [|[|n]]. }
    split_and!; try done.
    + unfold day_selected. by rewrite Hm.
    + unfold hour_selected. by rewrite Hm.
Qed.

Lemma mainland_only_file_draws_nothing_witness :
  (∀ raw, raw ∈ Sample.mainland_csv → raw_region raw = "육지")
  ∧ main (load_data Sample.mainland_csv) Sample.solar_jan1 = None.
Proof.
  assert (Hall : ∀ raw, raw ∈ Sample.mainland_csv → raw_region raw = "육지").
  { intros raw Hraw.
    repeat (apply elem_of_cons in Hraw as [->|Hraw]; [reflexivity|]).
    by apply elem_of_nil in Hraw. }
  split; [exact Hall|].
  exact (proj2 (proj1 (mainland_only_file_draws_nothing
                         Sample.mainland_csv Sample.solar_jan1)) Hall).
Defined.

(** X14. A source without rows: when the loaded frame has rows but none
    with the selected source as its fuel, the filtered frame is empty,
    the region totals are made and keep one row per region with volume
    0, the line-chart frame is empty, and the hourly frame, when
    computed, is empty. *)
Theorem source_without_rows {V} `{Volume V} (df : list (row V))
    (month_sel day_sel hour_sel : selection) (source_sel : string) :
  df ≠ [] →
  source_sel ≠ "합계" →
  (∀ r, r ∈ df → fuel r ≠ source_sel) →
  let sub := dff df month_sel day_sel hour_sel source_sel in
  sub = []
  ∧ df_map df sub = Some ((λ g, (g, vzero)) <$> all_regions df)
  ∧ df_line sub = []
  ∧ df_anim df sub aggregate = Some [].
Proof.
  intros Hdf Hs Hnone sub.
  assert (Hnil : sub = []).
  { destruct sub as [|r l] eqn:Hsub; [done|]. exfalso.
    assert (Hr : r ∈ sub) by (rewrite Hsub; by left).
    apply elem_of_dff in Hr as (Hr & _ & _ & _ & [?|Hf]); [done|].
    by apply (Hnone r). }
  rewrite Hnil. split_and!; [done|by rewrite df_map_eq|done|done].
Qed.

Lemma source_without_rows_witness :
  load_data Sample.seoul_csv ≠ []
  ∧ "풍력" ≠ "합계"
  ∧ (∀ r, r ∈ load_data Sample.seoul_csv → fuel r ≠ "풍력")
  ∧ df_map (load_data Sample.seoul_csv)
      (dff (load_data Sample.seoul_csv) aggregate aggregate aggregate "풍력")
    = Some ((λ g, (g, 0)) <$> all_regions (load_data Sample.seoul_csv)).
Proof.
  assert (Hdf : load_data Sample.seoul_csv ≠ [])
    by (vm_compute; discriminate).
  assert (Hs : "풍력" ≠ "합계") by discriminate.
  assert (Hnone : ∀ r, r ∈ load_data Sample.seoul_csv → fuel r ≠ "풍력").
  { intros r Hr. vm_compute in Hr.
    repeat (apply elem_of_cons in Hr as [->|Hr]; [discriminate|]).
    by apply elem_of_nil in Hr. }
  split; [exact Hdf|]. split; [exact Hs|]. split; [exact Hnone|].
  exact (proj1 (proj2 (source_without_rows (load_data Sample.seoul_csv)
                         aggregate aggregate aggregate "풍력"
                         Hdf Hs Hnone))).
Defined.

(** X15. The source selected is 태양광, 풍력 or ["합계"].  A row with any
    other fuel reaches the charts only under ["합계"]. *)
Theorem other_fuels_only_under_total {V} (df : list (row V)) (u : user)
    (r : row V) :
  r ∈ dff df (month_selected df u) (day_selected df u) (hour_selected df u)
        (source_selected u) →
  fuel r ≠ "태양광" → fuel r ≠ "풍력" →
  source_selected u = "합계".
Proof.
  intros Hr%elem_of_dff Hsolar Hwind.
  destruct Hr as (_ & _ & _ & _ & [Hs|Hf]); [done|].
  pose proof (selectbox_elem_of ["태양광"; "풍력"; "합계"] (pick_source u)
                ltac:(done)) as Hin.
  fold (source_selected u) in Hin. rewrite <- Hf in Hin.
  apply elem_of_cons in Hin as [?|Hin]; [done|].
  apply elem_of_cons in Hin as [?|Hin]; [done|].
  apply elem_of_cons in Hin as [?|Hin]; [congruence|].
  by apply elem_of_nil in Hin.
Qed.

Lemma other_fuels_only_under_total_witness :
  Sample.hydro_row ∈ dff Sample.hydro_df (month_selected Sample.hydro_df Sample.everything)
                (day_selected Sample.hydro_df Sample.everything)
                (hour_selected Sample.hydro_df Sample.everything)
                (source_selected Sample.everything)
  ∧ fuel Sample.hydro_row ≠ "태양광" ∧ fuel Sample.hydro_row ≠ "풍력"
  ∧ source_selected Sample.everything = "합계".
Proof.
  assert (Hin : Sample.hydro_row ∈ dff Sample.hydro_df
                  (month_selected Sample.hydro_df Sample.everything)
                  (day_selected Sample.hydro_df Sample.everything)
                  (hour_selected Sample.hydro_df Sample.everything)
                  (source_selected Sample.everything))
    by (vm_compute; left).
  assert (H1 : fuel Sample.hydro_row ≠ "태양광") by discriminate.
  assert (H2 : fuel Sample.hydro_row ≠ "풍력") by discriminate.
  split; [exact Hin|]. split; [exact H1|]. split; [exact H2|].
  exact (other_fuels_only_under_total Sample.hydro_df Sample.everything Sample.hydro_row
           Hin H1 H2).
Defined.

(** X16. The hourly frame is ordered by hour: its rows come in
    increasing hour, and rows of one hour in increasing region, so the
    frames of the animation run from the first hour to the last.  It
    has each pair of an hour and a region at most once and never more
    rows than the filtered frame. *)
Theorem df_anim_ordered_by_hour {V} `{Volume V} (df : list (row V))
    (month_sel day_sel hour_sel : selection) (source_sel : string)
    (view : list (string * Z * V)) :
  let sub := dff df month_sel day_sel hour_sel source_sel in
  df_anim df sub aggregate = Some view →
  StronglySorted Z.le ((λ p, p.1.2) <$> view)
  ∧ StronglySorted lex_le ((λ p, (p.1.2, p.1.1)) <$> view)
  ∧ NoDup ((λ p, (p.1.2, p.1.1)) <$> view)
  ∧ (length view ≤ length sub)%nat.
Proof.
  intros sub. rewrite df_anim_eq by apply dff_subseteq. intros [= <-].
  set (grouped := groupby_sum (λ r : row V, (hour r, region r)) volume sub).
  assert (Hkeys : (λ p : string * Z * V, (p.1.2, p.1.1))
                    <$> ((λ p, (p.1.2, p.1.1, p.2)) <$> grouped)
                  = grouped.*1).
  { rewrite <- list_fmap_compose. apply list_fmap_ext.
    by intros i [[h g] v] _. }
  assert (Hsorted : StronglySorted lex_le grouped.*1)
    by exact (groupby_sum_sorted (K:=Z * string) _ _ _).
  split_and!.
  - replace ((λ p : string * Z * V, p.1.2)
               <$> ((λ p, (p.1.2, p.1.1, p.2)) <$> grouped))
      with (fst <$> grouped.*1).
    + eapply StronglySorted_fmap; [|exact Hsorted].
      intros [h1 g1] [h2 g2] [[Hle _]|[-> _]]; simpl in *; [done|].
      reflexivity.
    + rewrite <- !list_fmap_compose. apply list_fmap_ext.
      by intros i [[h g] v] _.
  - by rewrite Hkeys.
  - rewrite Hkeys. apply groupby_sum_NoDup.
  - rewrite length_fmap. apply groupby_sum_length.
Qed.

Lemma df_anim_ordered_by_hour_witness :
  df_anim Sample.df (dff Sample.df aggregate aggregate aggregate "합계")
    aggregate
  = Some [("서울특별시", 0, 15); ("제주특별자치도", 0, 3);
          ("부산광역시", 2, 4); ("부산광역시", 23, 7)]
  ∧ StronglySorted Z.le [0; 0; 2; 23].
Proof.
  assert (Hview : df_anim Sample.df
                    (dff Sample.df aggregate aggregate aggregate "합계")
                    aggregate
                  = Some [("서울특별시", 0, 15); ("제주특별자치도", 0, 3);
                          ("부산광역시", 2, 4); ("부산광역시", 23, 7)])
    by (vm_compute; reflexivity).
  split; [exact Hview|].
  exact (proj1 (df_anim_ordered_by_hour Sample.df aggregate aggregate
                  aggregate "합계" _ Hview)).
Defined.

End end_to_end.
